(** * USN-Journal-Parser: a shallow embedding of [usnparser/usn.py]

    The development follows the layout of the script: the three flag
    tables, the [struct] and stream primitives the script calls, the
    journal scanner ([findFirstRecord], [findNextRecord]), the primitive
    decoders ([filetimeToHumanReadable], [filetimeToEpoch],
    [convertFileReference], [convertAttributes]), the filename reader
    ([filenameHandler]) and the record decoder ([parseUsn]).

    Python integers are [Z]; [bytes] objects are [list byte]; [str] is
    [string] for ASCII text and a list of code points for decoded
    filenames; a Python call that may raise returns a [result]. *)

From Stdlib Require Import String Ascii ZArith List Lia Bool QArith.
From Stdlib Require Import HexString NArith.
From coqutil Require Import Byte Word.LittleEndianList Z.bitblast.
Import ListNotations.

Local Open Scope Z_scope.

(** ** Python exceptions and results *)

(** The exception classes that the script or the library calls it makes
    can raise. [UnicodeDecodeError] is a subclass of [ValueError];
    [StructError] is [struct.error]; [SystemExit] is what [sys.exit()]
    raises. *)
Inductive PyExc : Set :=
| StructError
| ValueError
| UnicodeDecodeError
| OverflowError
| OSError
| SystemExit.

(** [isinstance(e, ValueError)]: what an [except ValueError] clause
    catches. *)
Definition is_ValueError (e : PyExc) : bool :=
  match e with
  | ValueError | UnicodeDecodeError => true
  | _ => false
  end.

(** [isinstance(e, struct.error)]. *)
Definition is_StructError (e : PyExc) : bool :=
  match e with
  | StructError => true
  | _ => false
  end.

Inductive result (A : Type) : Type :=
| Ok (a : A)
| Raise (e : PyExc).
Arguments Ok {A} a.
Arguments Raise {A} e.

Definition bind {A B} (r : result A) (k : A -> result B) : result B :=
  match r with
  | Ok a => k a
  | Raise e => Raise e
  end.

Notation "x <- r ;; k" := (bind r (fun x => k))
  (at level 61, r at next level, right associativity).

(** ** The [struct] module, little-endian formats *)

Module Struct.

(** [b[i:j]] on a bytes-like object. *)
Definition slice {A} (i j : nat) (b : list A) : list A :=
  firstn (j - i) (skipn i b).

(** [struct.unpack_from('<I', buf)[0]] and the like: an unsigned
    little-endian integer of [n] bytes read at offset 0; [struct.error]
    when the buffer holds fewer than [n] bytes. *)
Definition unpack_from_unsigned (n : nat) (buf : list byte) : result Z :=
  if (length buf <? n)%nat then Raise StructError
  else Ok (le_combine (firstn n buf)).

Definition unpack_from_I := unpack_from_unsigned 4.

(** The two's complement reading of a [w]-bit pattern. *)
Definition to_signed (w : Z) (u : Z) : Z :=
  if u <? 2 ^ (w - 1) then u else u - 2 ^ w.

(** [struct.unpack_from('<h', buf)[0]]. *)
Definition unpack_from_h (buf : list byte) : result Z :=
  u <- unpack_from_unsigned 2 buf ;; Ok (to_signed 16 u).

(** [struct.pack('<Q', v)]: [struct.error] unless [0 <= v < 2**64]. *)
Definition pack_Q (v : Z) : result (list byte) :=
  if (0 <=? v) && (v <? 2 ^ 64) then Ok (le_split 8 v)
  else Raise StructError.

(** [struct.unpack_from('<{n}s', buf)[0]]: the first [n] bytes. *)
Definition unpack_from_s (n : nat) (buf : list byte) : result (list byte) :=
  if (length buf <? n)%nat then Raise StructError
  else Ok (firstn n buf).

End Struct.

(** ** Flag tables (lines 35-85)

    An [OrderedDict] is an association list in insertion order;
    [d[k] = v] replaces the value of an existing key in place and
    appends a new key at the end. *)

Definition OrderedDict := list (Z * string).

Fixpoint setitem (d : OrderedDict) (k : Z) (v : string) : OrderedDict :=
  match d with
  | [] => [(k, v)]
  | (k', v') :: d' =>
      if k' =? k then (k', v) :: d' else (k', v') :: setitem d' k v
  end.

Definition assign_all (l : list (Z * string)) : OrderedDict :=
  fold_left (fun d kv => setitem d (fst kv) (snd kv)) l [].

Local Open Scope string_scope.

Definition reasons : OrderedDict := Eval vm_compute in assign_all
  [ (0x1, "DATA_OVERWRITE");
    (0x2, "DATA_EXTEND");
    (0x4, "DATA_TRUNCATION");
    (0x10, "NAMED_DATA_OVERWRITE");
    (0x20, "NAMED_DATA_EXTEND");
    (0x40, "NAMED_DATA_TRUNCATION");
    (0x100, "FILE_CREATE");
    (0x200, "FILE_DELETE");
    (0x400, "EA_CHANGE");
    (0x800, "SECURITY_CHANGE");
    (0x1000, "RENAME_OLD_NAME");
    (0x2000, "RENAME_NEW_NAME");
    (0x4000, "INDEXABLE_CHANGE");
    (0x8000, "BASIC_INFO_CHANGE");
    (0x10000, "HARD_LINK_CHANGE");
    (0x20000, "COMPRESSION_CHANGE");
    (0x40000, "ENCRYPTION_CHANGE");
    (0x80000, "OBJECT_ID_CHANGE");
    (0x100000, "REPARSE_POINT_CHANGE");
    (0x200000, "STREAM_CHANGE");
    (0x800000, "INTEGRITY_CHANGE");
    (0x00400000, "TRANSACTED_CHANGE");
    (0x80000000, "CLOSE") ].

Definition attributes : OrderedDict := Eval vm_compute in assign_all
  [ (0x1, "READONLY");
    (0x2, "HIDDEN");
    (0x4, "SYSTEM");
    (0x10, "DIRECTORY");
    (0x20, "ARCHIVE");
    (0x40, "DEVICE");
    (0x80, "NORMAL");
    (0x100, "TEMPORARY");
    (0x200, "SPARSE_FILE");
    (0x400, "REPARSE_POINT");
    (0x800, "COMPRESSED");
    (0x1000, "OFFLINE");
    (0x2000, "NOT_CONTENT_INDEXED");
    (0x4000, "ENCRYPTED");
    (0x8000, "INTEGRITY_STREAM");
    (0x10000, "VIRTUAL");
    (0x20000, "NO_SCRUB_DATA") ].

Definition sourceInfo : OrderedDict := Eval vm_compute in assign_all
  [ (0x1, "DATA_MANAGEMENT");
    (0x2, "AUXILIARY_DATA");
    (0x4, "REPLICATION_MANAGEMENT");
    (0x8, "CLIENT_REPLICATION_MANAGEMENT") ].

Local Close Scope string_scope.

(** ** [convertAttributes] (lines 217-222) *)

(** [sep.join(l)]. *)
Fixpoint join (sep : string) (l : list string) : string :=
  match l with
  | [] => EmptyString
  | [x] => x
  | x :: l' => (x ++ sep ++ join sep l')%string
  end.

(** [[attributeType[i] for i in attributeType if i & data]]: the keys are
    visited in insertion order and a key is kept when [i & data] is a
    non-zero (truthy) integer. *)
Definition attributeList (attributeType : OrderedDict) (data : Z)
  : list string :=
  map snd (filter (fun kv => negb (Z.land (fst kv) data =? 0)) attributeType).

Definition convertAttributes (attributeType : OrderedDict) (data : Z)
  : string :=
  join " "%string (attributeList attributeType data).

(** The names in a flag string: [s.split()], the maximal runs without a
    blank. *)
Fixpoint words_from (acc : string) (s : string) : list string :=
  match s with
  | EmptyString =>
      match acc with EmptyString => [] | _ => [acc] end
  | String c s' =>
      if Ascii.eqb c " " then
        match acc with
        | EmptyString => words_from EmptyString s'
        | _ => acc :: words_from EmptyString s'
        end
      else words_from (acc ++ String c EmptyString)%string s'
  end.

Definition words (s : string) : list string := words_from EmptyString s.

Fixpoint no_blank (s : string) : bool :=
  match s with
  | EmptyString => true
  | String c s' => negb (Ascii.eqb c " ") && no_blank s'
  end.

(** A name that can be read back from a flag string. *)
Definition is_name (s : string) : bool :=
  match s with
  | EmptyString => false
  | _ => no_blank s
  end.

(** [l1] is [l2] with some elements left out, the others in place. *)
Inductive subsequence {A : Type} : list A -> list A -> Prop :=
| subsequence_nil : subsequence [] []
| subsequence_skip x l1 l2 : subsequence l1 l2 -> subsequence l1 (x :: l2)
| subsequence_keep x l1 l2 :
    subsequence l1 l2 -> subsequence (x :: l1) (x :: l2).

(** ** [convertFileReference] (lines 188-202) *)

(** [format(i, 'x')]: lower-case hexadecimal digits, no prefix and no
    padding. *)
Definition format_x (i : Z) : string :=
  match i with
  | Z0 => "0"%string
  | Zpos p => HexString.Raw.of_pos p EmptyString
  | Zneg p => String "-" (HexString.Raw.of_pos p EmptyString)
  end.

Definition is_hexdigit (c : ascii) : bool :=
  match HexString.ascii_to_digit c with
  | Some _ => true
  | None => false
  end.

Fixpoint all_hexdigits (s : string) : bool :=
  match s with
  | EmptyString => true
  | String c s' => is_hexdigit c && all_hexdigits s'
  end.

(** [int(s, 16)] on a string of hexadecimal digits; the empty string and
    a string with another character are a [ValueError] here (Python also
    accepts a sign, a [0x] prefix, blanks and underscores, none of which
    [format_x] of a byte produces). *)
Definition int_16 (s : string) : result Z :=
  match s with
  | EmptyString => Raise ValueError
  | _ => if all_hexdigits s then Ok (Z.of_N (HexString.Raw.to_N s 0%N))
         else Raise ValueError
  end.

(** The body of the loop: [byteString += format(i, 'x')]. *)
Definition append_hex (byteString : string) (i : byte) : string :=
  (byteString ++ format_x (byte.unsigned i))%string.

Definition convertFileReference (buf : Z) : result (Z * Z) :=
  b <- Struct.pack_Q buf ;;
  seq <- Struct.unpack_from_h (Struct.slice 6 8 b) ;;
  let b := Struct.slice 0 6 b in
  let byteString := fold_left append_hex (rev b) EmptyString in
  entry <- int_16 byteString ;;
  Ok (seq, entry).

(** What one byte adds to the number [int(byteString, 16)] reads back:
    one hexadecimal digit when the byte is below 0x10, two otherwise. *)
Definition hex_step (acc : N) (b : byte) : N :=
  if (Byte.to_N b <? 16)%N then (16 * acc + Byte.to_N b)%N
  else (256 * acc + Byte.to_N b)%N.

(** ** The journal stream: a binary file opened for reading

    [content] is the whole file and [position] the cursor; [seek] may put
    the cursor past the end, where [read] returns no byte and leaves the
    cursor in place. *)

Record stream : Type := mkStream {
  content : list byte;
  position : nat
}.

Module IO.

(** [infile.read(n)]: at most [n] bytes from the cursor, which moves
    past the bytes returned. *)
Definition read (n : nat) (f : stream) : list byte * stream :=
  let data := firstn n (skipn (position f) (content f)) in
  (data, mkStream (content f) (position f + length data)).

(** [infile.tell()]. *)
Definition tell (f : stream) : Z := Z.of_nat (position f).

(** [infile.seek(offset)]: absolute; a negative target is an
    [OSError]. *)
Definition seek (offset : Z) (f : stream) : result stream :=
  if offset <? 0 then Raise OSError
  else Ok (mkStream (content f) (Z.to_nat offset)).

(** [infile.seek(offset, 1)]: relative to the cursor. *)
Definition seek_cur (offset : Z) (f : stream) : result stream :=
  seek (tell f + offset) f.

(** [os.path.getsize] of the file behind the stream. *)
Definition getsize (f : stream) : Z := Z.of_nat (length (content f)).

End IO.

(** [data.lstrip(chars)] on bytes: drop the leading bytes that occur in
    [chars]. *)
Fixpoint lstrip (chars : list byte) (data : list byte) : list byte :=
  match data with
  | [] => []
  | b :: data' =>
      if existsb (Byte.eqb b) chars then lstrip chars data' else data
  end.

(** ** [findFirstRecord] (lines 141-150)

    The [while True] loop runs under a bound on the number of
    iterations: [None] means that the loop is still running after [fuel]
    iterations. *)

Definition CHUNK : nat := Z.to_nat 65536.

Fixpoint findFirstRecord (fuel : nat) (infile : stream)
  : option (Z * stream) :=
  match fuel with
  | O => None
  | S fuel' =>
      let (chunk, infile') := IO.read CHUNK infile in
      let data := lstrip [Byte.x00] chunk in
      match data with
      | _ :: _ => Some (IO.tell infile' - Z.of_nat (length data), infile')
      | [] => findFirstRecord fuel' infile'
      end
  end.

(** ** [findNextRecord] (lines 153-168)

    [try_read_length] is the body of the [try] block: [Ok (Some off)]
    when the [return] statement is reached, [Ok None] when the block
    ends without returning (a zero length), [Raise e] when a call in it
    raises. The stream is threaded through. [sys.exit()] raises
    [SystemExit]. *)

Definition try_read_length (infile : stream) : result (option Z) * stream :=
  let (buf, infile) := IO.read 4 infile in
  match Struct.unpack_from_I buf with
  | Raise e => (Raise e, infile)
  | Ok recordLength =>
      if recordLength =? 0 then (Ok None, infile)
      else
        match IO.seek_cur (-4) infile with
        | Raise e => (Raise e, infile)
        | Ok infile => (Ok (Some (IO.tell infile + recordLength)), infile)
        end
  end.

Fixpoint findNextRecord (fuel : nat) (infile : stream) (journalSize : Z)
  : option (result Z * stream) :=
  match fuel with
  | O => None
  | S fuel' =>
      match try_read_length infile with
      | (Ok (Some offset), infile) => Some (Ok offset, infile)
      | (Ok None, infile) => findNextRecord fuel' infile journalSize
      | (Raise e, infile) =>
          if is_StructError e then
            if IO.tell infile >=? journalSize
            then Some (Raise SystemExit, infile)
            else findNextRecord fuel' infile journalSize
          else Some (Raise e, infile)
      end
  end.

(** No 4-byte length field that the scan of [findNextRecord] reads from
    the bytes [l] ahead of the cursor is non-zero; fewer than four bytes
    at the end are no length field. *)
Fixpoint zero_lengths (l : list byte) : bool :=
  match l with
  | b0 :: b1 :: b2 :: b3 :: l' =>
      (le_combine [b0; b1; b2; b3] =? 0) && zero_lengths l'
  | _ => true
  end.

(** ** Floating point: binary64 values as exact rationals

    A finite double is the rational it denotes. [RN] rounds a rational to
    the nearest double, ties to even, with a 53-bit significand;
    exponent overflow and subnormal numbers are left out, since the
    magnitudes the script computes from a 64-bit FILETIME are zero or
    lie between [2^-24] and [2^65]. *)

Module Float.

Definition prec : Z := 53.

(** [(a', d')] with [a' / d' = (a / d) * 2^k]. *)
Definition scale2 (a d k : Z) : Z * Z :=
  if 0 <=? k then (a * 2 ^ k, d) else (a, d * 2 ^ (- k)).

(** [floor (log2 (a / d))] for positive [a] and [d]. *)
Definition ilog2 (a d : Z) : Z :=
  let e0 := Z.log2 a - Z.log2 d in
  let (a', d') := scale2 a d (- e0) in
  if d' <=? a' then e0 else e0 - 1.

(** The integer nearest to [n / d], ties to the even one ([d > 0]). *)
Definition round_half_even (n d : Z) : Z :=
  let q := n / d in
  let r := n mod d in
  if 2 * r <? d then q
  else if d <? 2 * r then q + 1
  else if Z.even q then q else q + 1.

(** [m * 2^(-k)] as a rational. *)
Definition ldexp_neg (m k : Z) : Q :=
  if 0 <=? k then Qmake m (Z.to_pos (2 ^ k))
  else inject_Z (m * 2 ^ (- k)).

Definition RN (x : Q) : Q :=
  let n := Qnum x in
  let d := Zpos (Qden x) in
  if n =? 0 then 0%Q
  else
    let a := Z.abs n in
    let k := prec - 1 - ilog2 a d in
    let (a', d') := scale2 a d k in
    Qred (ldexp_neg (Z.sgn n * round_half_even a' d') k).

(** [float(i)] for an [int]. *)
Definition of_int (i : Z) : Q := RN (inject_Z i).

(** [a / b] for two [int]s: the correctly rounded quotient ([b] is not
    zero where the script divides). *)
Definition int_truediv (a b : Z) : Q := RN (Qmake a 1 / Qmake b 1).

Definition mul (x y : Q) : Q := RN (x * y).
Definition sub (x y : Q) : Q := RN (x - y).

(** The literal [1e-7]. *)
Definition lit_1e_7 : Q := RN (Qmake 1 10000000).

(** [int(x)] for a float: truncation towards zero. *)
Definition to_int (x : Q) : Z := Z.quot (Qnum x) (Zpos (Qden x)).

End Float.

(** ** [filetimeToEpoch] (lines 181-185)

    In Python 3 [filetime / 10000] is a true division: the quotient is a
    float, so is the difference, and [int] truncates it. *)

Definition filetimeToEpoch (filetime : Z) : Z :=
  Float.to_int
    (Float.sub (Float.int_truediv filetime 10000)
               (Float.of_int 11644473600000)).

(** ** [filetimeToHumanReadable] (lines 171-178)

    [datetime.utcfromtimestamp] and [str] of its result belong to the
    Python runtime; the function is taken as a parameter that maps the
    float handed to it to the string or to the exception raised. Python
    documents [OverflowError] (timestamp outside the platform's
    [time_t] or [gmtime()] range) and [OSError] ([gmtime()] failure) for
    it, and the [datetime] constructor raises [ValueError] for a year
    outside 1..9999. The function returns [None] when the [except]
    clause swallows the exception. *)

Section HumanReadable.

Variable utcfromtimestamp_str : Q -> result string.

(** [float(filetime) * 1e-7 - 11644473600]. *)
Definition unix_seconds (filetime : Z) : Q :=
  Float.sub (Float.mul (Float.of_int filetime) Float.lit_1e_7)
            (Float.of_int 11644473600).

Definition filetimeToHumanReadable (filetime : Z) : result (option string) :=
  match utcfromtimestamp_str (unix_seconds filetime) with
  | Ok s => Ok (Some s)
  | Raise e => if is_ValueError e then Ok None else Raise e
  end.

End HumanReadable.

(** ** The [utf16] codec, strict error handling

    A decoded [str] is the list of its code points. [None] stands for
    [UnicodeDecodeError]: an odd number of bytes, a high surrogate not
    followed by a low one, or a low surrogate on its own. *)

Inductive ByteOrder : Set := LittleEndian | BigEndian.

Module Utf16.

(** The 16-bit code units of a byte string, and whether a byte was
    left over. *)
Fixpoint code_units (bo : ByteOrder) (bs : list byte) : list Z * bool :=
  match bs with
  | [] => ([], false)
  | [_] => ([], true)
  | b0 :: b1 :: bs' =>
      let u := match bo with
               | LittleEndian => le_combine [b0; b1]
               | BigEndian => le_combine [b1; b0]
               end in
      let (us, left) := code_units bo bs' in
      (u :: us, left)
  end.

Definition is_high (u : Z) : bool := (0xD800 <=? u) && (u <=? 0xDBFF).
Definition is_low (u : Z) : bool := (0xDC00 <=? u) && (u <=? 0xDFFF).

Fixpoint code_points (us : list Z) : option (list Z) :=
  match us with
  | [] => Some []
  | u :: us' =>
      if is_high u then
        match us' with
        | u2 :: us'' =>
            if is_low u2 then
              option_map
                (cons (0x10000 + Z.shiftl (u - 0xD800) 10 + (u2 - 0xDC00)))
                (code_points us'')
            else None
        | [] => None
        end
      else if is_low u then None
      else option_map (cons u) (code_points us')
  end.

(** [bs.decode('utf-16-le')] and [bs.decode('utf-16-be')]: a fixed byte
    order, no byte order mark is looked for. *)
Definition decode_fixed (bo : ByteOrder) (bs : list byte) : option (list Z) :=
  let (us, left) := code_units bo bs in
  if left then None else code_points us.

Definition decode_le := decode_fixed LittleEndian.

(** [bs.decode('utf16')]: a leading FF FE selects little-endian and a
    leading FE FF big-endian, and the mark is dropped; without a mark
    the byte order is the host's ([sys.byteorder]). *)
Definition decode (native : ByteOrder) (bs : list byte) : option (list Z) :=
  match bs with
  | Byte.xff :: Byte.xfe :: bs' => decode_fixed LittleEndian bs'
  | Byte.xfe :: Byte.xff :: bs' => decode_fixed BigEndian bs'
  | _ => decode_fixed native bs
  end.

End Utf16.

(** ** [filenameHandler] (lines 205-214)

    [filenameLength] is [recordDict['filenameLength']]. A short read
    makes [struct.unpack_from] raise [struct.error], which is caught; a
    [UnicodeDecodeError] of [decode] is not. *)

Definition filenameHandler (native : ByteOrder) (infile : stream)
  (filenameLength : Z) : result (list Z) * stream :=
  let n := Z.to_nat filenameLength in
  let (buf, infile) := IO.read n infile in
  let r :=
    filename <- Struct.unpack_from_s n buf ;;
    match Utf16.decode native filename with
    | Some text => Ok text
    | None => Raise UnicodeDecodeError
    end in
  match r with
  | Raise e => if is_StructError e then (Ok [], infile) else (Raise e, infile)
  | Ok text => (Ok text, infile)
  end.

(** ** [parseUsn] (lines 88-138) *)

(** The tuple [struct.unpack_from('<2H4Q4I2H', buf)] zipped with
    [recordProperties]. *)
Record UsnHeader : Type := mkHeader {
  h_majorVersion : Z;
  h_minorVersion : Z;
  h_fileReferenceNumber : Z;
  h_parentFileReferenceNumber : Z;
  h_usn : Z;
  h_timestamp : Z;
  h_reason : Z;
  h_sourceInfo : Z;
  h_securityId : Z;
  h_fileAttributes : Z;
  h_filenameLength : Z;
  h_filenameOffset : Z
}.

Definition field (off len : nat) (buf : list byte) : Z :=
  le_combine (Struct.slice off (off + len) buf).

Definition unpack_from_2H4Q4I2H (buf : list byte) : result UsnHeader :=
  if (length buf <? 56)%nat then Raise StructError
  else Ok (mkHeader
             (field 0 2 buf) (field 2 2 buf)
             (field 4 8 buf) (field 12 8 buf) (field 20 8 buf) (field 28 8 buf)
             (field 36 4 buf) (field 40 4 buf) (field 44 4 buf) (field 48 4 buf)
             (field 52 2 buf) (field 54 2 buf)).

(** The dictionary [parseUsn] returns, one field per key of [reorder]. *)
Record UsnRecord : Type := mkRecord {
  filename : list Z;
  humanTimestamp : option string;
  timestamp : string;
  epochTimestamp : Z;
  usn : Z;
  fileReferenceNumber : Z;
  parentFileReferenceNumber : Z;
  reason : string;
  fileAttributes : string;
  mftSeqNumber : Z;
  mftEntryNumber : Z;
  pMftSeqNumber : Z;
  pMftEntryNumber : Z;
  filenameLength : Z;
  filenameOffset : Z;
  sourceInfoField : Z;
  securityId : Z;
  majorVersion : Z;
  minorVersion : Z
}.

Fixpoint zeros_str (n : nat) : string :=
  match n with
  | O => EmptyString
  | S n' => String "0" (zeros_str n')
  end.

(** [f"{i:016x}"] for a non-negative [i]: zeros on the left up to 16
    characters. *)
Definition format_016x (i : Z) : string :=
  (zeros_str (16 - String.length (format_x i)) ++ format_x i)%string.

(** The Python runtime under the script: the host byte order and the
    behaviour of [str(datetime.utcfromtimestamp(x))]. *)
Record Runtime : Type := mkRuntime {
  byteorder : ByteOrder;
  utcfromtimestamp_str : Q -> result string
}.

(** A runtime whose C [time_t] is a signed integer of [bits] bits, after
    the Python documentation of [datetime.utcfromtimestamp]: the call
    raises [OverflowError] when the timestamp is outside the range of
    the platform's [time_t]; [gmtime_str] is the rest of the conversion
    for a timestamp in range. *)
Definition utcfromtimestamp_time_t (bits : Z) (gmtime_str : Q -> result string)
  (x : Q) : result string :=
  let intpart := Float.to_int x in
  if (- 2 ^ (bits - 1) <=? intpart) && (intpart <? 2 ^ (bits - 1))
  then gmtime_str x
  else Raise OverflowError.

(** A runtime whose C [gmtime()] fails on a time before 1970, as the
    one of Windows does: the call raises [OSError], which is what the
    Python documentation gives for a [gmtime()] failure. *)
Definition utcfromtimestamp_from_1970 (gmtime_str : Q -> result string)
  (x : Q) : result string :=
  if Float.to_int x <? 0 then Raise OSError else gmtime_str x.

(** A runtime for the examples: little-endian host, 32-bit [time_t],
    and a conversion that finds every year out of range. *)
Definition example_runtime : Runtime :=
  mkRuntime LittleEndian
    (utcfromtimestamp_time_t 32 (fun _ => Raise ValueError)).

Definition parseUsn (py : Runtime) (infile : stream) (h : UsnHeader)
  : result UsnRecord * stream :=
  match filenameHandler (byteorder py) infile (h_filenameLength h) with
  | (Raise e, infile) => (Raise e, infile)
  | (Ok name, infile) =>
      (let reason := convertAttributes reasons (h_reason h) in
       let fileAttributes := convertAttributes attributes (h_fileAttributes h) in
       human <- filetimeToHumanReadable (utcfromtimestamp_str py) (h_timestamp h) ;;
       let epoch := filetimeToEpoch (h_timestamp h) in
       let stamp := format_016x (h_timestamp h) in
       own <- convertFileReference (h_fileReferenceNumber h) ;;
       parent <- convertFileReference (h_parentFileReferenceNumber h) ;;
       Ok (mkRecord name human stamp epoch (h_usn h)
             (h_fileReferenceNumber h) (h_parentFileReferenceNumber h)
             reason fileAttributes
             (fst own) (snd own) (fst parent) (snd parent)
             (h_filenameLength h) (h_filenameOffset h)
             (h_sourceInfo h) (h_securityId h)
             (h_majorVersion h) (h_minorVersion h)),
       infile)
  end.

(** ** The record loop of [main] (lines 262-332)

    The five branches of [main] differ only in how they render [u]; the
    stream traffic of one iteration is the same. [None] means that
    [findNextRecord] needs more than [fuel] iterations. *)

Definition main_iteration (py : Runtime) (fuel : nat) (i : stream)
  (journalSize : Z) : option (result UsnRecord * stream) :=
  match findNextRecord fuel i journalSize with
  | None => None
  | Some (Raise e, i) => Some (Raise e, i)
  | Some (Ok nextRecord, i) =>
      let (buf4, i) := IO.read 4 i in
      match Struct.unpack_from_I buf4 with
      | Raise e => Some (Raise e, i)
      | Ok recordLength =>
          let (buf56, i) := IO.read 56 i in
          match unpack_from_2H4Q4I2H buf56 with
          | Raise e => Some (Raise e, i)
          | Ok recordData =>
              match parseUsn py i recordData with
              | (Raise e, i) => Some (Raise e, i)
              | (Ok u, i) =>
                  match IO.seek nextRecord i with
                  | Raise e => Some (Raise e, i)
                  | Ok i => Some (Ok u, i)
                  end
              end
          end
      end
  end.

(** The [while True] loop: the records written before the loop is left,
    and the exception that leaves it (nothing else does). [rounds]
    bounds the number of records and [fuel] the scan before each. *)
Fixpoint main_loop (py : Runtime) (rounds fuel : nat) (i : stream)
  (journalSize : Z) : option (list UsnRecord * PyExc) :=
  match rounds with
  | O => None
  | S rounds' =>
      match main_iteration py fuel i journalSize with
      | None => None
      | Some (Raise e, _) => Some ([], e)
      | Some (Ok u, i) =>
          match main_loop py rounds' fuel i journalSize with
          | None => None
          | Some (us, e) => Some (u :: us, e)
          end
      end
  end.

(** A Unicode scalar value: a code point that is not a surrogate, which
    is what [str.encode('utf8')] encodes without calling its error
    handler. *)
Definition is_scalar_value (cp : Z) : bool :=
  (0 <=? cp) && (cp <=? 0x10FFFF)
  && negb ((0xD800 <=? cp) && (cp <=? 0xDFFF)).

(** [int(u['epochTimestamp'] / 1000)], the seconds of the body file
    lines (lines 286-289): a true division and a truncation. *)
Definition body_seconds (epochTimestamp : Z) : Z :=
  Float.to_int (Float.int_truediv epochTimestamp 1000).

(** The OR of the bit values of a flag table. *)
Definition table_mask (T : OrderedDict) : Z :=
  fold_right Z.lor 0 (map fst T).

(** ** [main] (lines 255-332), without the rendering

    [journalSize] is the size of the file, the cursor is moved to the
    offset [findFirstRecord] returns, and the record loop runs. *)

Definition main (py : Runtime) (scan rounds fuel : nat) (file : list byte)
  : option (list UsnRecord * PyExc) :=
  let journalSize := IO.getsize (mkStream file 0) in
  match findFirstRecord scan (mkStream file 0) with
  | None => None
  | Some (offset, i) =>
      match IO.seek offset i with
      | Raise e => Some ([], e)
      | Ok i => main_loop py rounds fuel i journalSize
      end
  end.

(** ** Journals laid out record after record

    A record as it lies in a journal: [jr_gap] zero length fields of
    padding in front, the 4-byte record length, the 56-byte header of
    [parseUsn], and the rest of the record (the filename and what
    follows it up to the record length). *)

Record JournalRecord : Type := mkJournalRecord {
  jr_gap : nat;
  jr_len4 : list byte;
  jr_hdr : list byte;
  jr_body : list byte
}.

Definition jr_bytes (r : JournalRecord) : list byte :=
  repeat Byte.x00 (4 * jr_gap r) ++ jr_len4 r ++ jr_hdr r ++ jr_body r.

Definition journal_bytes (rs : list JournalRecord) (tail : list byte)
  : list byte :=
  flat_map jr_bytes rs ++ tail.

(** The record length is the length of the record, and the filename
    length of the header does not reach past the record. *)
Definition well_formed (r : JournalRecord) : bool :=
  (length (jr_len4 r) =? 4)%nat
  && (length (jr_hdr r) =? 56)%nat
  && (le_combine (jr_len4 r) =? Z.of_nat (60 + length (jr_body r)))
  && (field 52 2 (jr_hdr r) <=? Z.of_nat (length (jr_body r))).

(** The record decoded on its own: [parseUsn] on the header, with a
    stream that holds the rest of the record and nothing else. *)
Definition parse_record (py : Runtime) (r : JournalRecord)
  : result UsnRecord :=
  match unpack_from_2H4Q4I2H (jr_hdr r) with
  | Raise e => Raise e
  | Ok h => fst (parseUsn py (mkStream (jr_body r) 0) h)
  end.

(** The records decoded one by one up to the first that raises, and the
    exception that ends the run: that one, or [SystemExit] after the
    last record. *)
Fixpoint decode_all (py : Runtime) (rs : list JournalRecord)
  : list UsnRecord * PyExc :=
  match rs with
  | [] => ([], SystemExit)
  | r :: rs' =>
      match parse_record py r with
      | Raise e => ([], e)
      | Ok u => let (us, e) := decode_all py rs' in (u :: us, e)
      end
  end.

(** What one byte adds to the little-endian number of a byte string
    read from its last byte. *)
Definition step256 (acc : N) (b : byte) : N := (256 * acc + Byte.to_N b)%N.

(** A bit value with exactly one bit set. *)
Definition single_bit (k : Z) : bool := (0 <? k) && (k =? 2 ^ Z.log2 k).

(** A 56-byte header for the examples: the timestamp
    132223104000000000 (2020-01-01 00:00:00 UTC), the filename length
    [n], the filename offset 60, and zero in the other fields. *)
Definition example_header (n : byte) : list byte :=
  repeat Byte.x00 28
  ++ [Byte.x00; Byte.x00; Byte.x05; Byte.x69;
      Byte.x36; Byte.xc0; Byte.xd5; Byte.x01]
  ++ repeat Byte.x00 16
  ++ [n; Byte.x00; Byte.x3c; Byte.x00].

(** Two records for the examples, with the header above: one of length
    64 with the filename [ab], and, after one zero length field, one of
    length 72 with the filename [cde] and six bytes of padding. *)
Definition example_journal : list JournalRecord :=
  [ mkJournalRecord 0
      [Byte.x40; Byte.x00; Byte.x00; Byte.x00]
      (example_header Byte.x04)
      [Byte.x61; Byte.x00; Byte.x62; Byte.x00];
    mkJournalRecord 1
      [Byte.x48; Byte.x00; Byte.x00; Byte.x00]
      (example_header Byte.x06)
      ([Byte.x63; Byte.x00; Byte.x64; Byte.x00; Byte.x65; Byte.x00]
       ++ repeat Byte.x00 6) ].


(** * Properties *)

(** ** Bytes and [lstrip] *)

Lemma CHUNK_pos : (0 < CHUNK)%nat.
Proof. unfold CHUNK. lia. Qed.

Lemma lstrip_zeros_app (k : nat) (l : list byte) :
  lstrip [Byte.x00] (repeat Byte.x00 k ++ l) = lstrip [Byte.x00] l.
Proof. induction k as [|k IH]; simpl; auto. Qed.

Lemma lstrip_nonzero (b : byte) (l : list byte) :
  b <> Byte.x00 -> lstrip [Byte.x00] (b :: l) = b :: l.
Proof.
  intros Hb. simpl.
  destruct (Byte.eqb b Byte.x00) eqn:E; [|reflexivity].
  apply Byte.byte_dec_bl in E. contradiction.
Qed.

Lemma lstrip_nil_iff (l : list byte) :
  lstrip [Byte.x00] l = [] <-> Forall (fun b => b = Byte.x00) l.
Proof.
  induction l as [|b l IH]; simpl.
  - split; auto.
  - destruct (Byte.eqb b Byte.x00) eqn:E; simpl.
    + apply Byte.byte_dec_bl in E. rewrite IH. split; intros H.
      * constructor; assumption.
      * inversion H; assumption.
    + split; intros H; [discriminate|].
      inversion H as [|? ? Hb _]. subst b. discriminate.
Qed.

(** A list with a non-zero byte is a run of zero bytes, the first
    non-zero byte and a rest. *)
Lemma first_nonzero_split (l : list byte) :
  Exists (fun b => b <> Byte.x00) l ->
  exists k b rest, l = repeat Byte.x00 k ++ b :: rest /\ b <> Byte.x00.
Proof.
  induction l as [|a l IH]; intros H.
  - inversion H.
  - destruct (Byte.byte_eq_dec a Byte.x00) as [Ha|Ha].
    + inversion H as [? ? Hn|? ? Hl]; subst; [contradiction|].
      destruct (IH Hl) as (k & b & rest & -> & Hb).
      exists (S k), b, rest. auto.
    + exists O, a, l. auto.
Qed.

Lemma Forall_firstn {A} (P : A -> Prop) (n : nat) (l : list A) :
  Forall P l -> Forall P (firstn n l).
Proof.
  intros H. rewrite <- (firstn_skipn n l) in H.
  apply Forall_app in H. tauto.
Qed.

Lemma Forall_skipn {A} (P : A -> Prop) (n : nat) (l : list A) :
  Forall P l -> Forall P (skipn n l).
Proof.
  intros H. rewrite <- (firstn_skipn n l) in H.
  apply Forall_app in H. tauto.
Qed.

(** ** [findFirstRecord] *)

Local Opaque CHUNK.

Lemma findFirstRecord_step (fuel : nat) (infile : stream) :
  findFirstRecord (S fuel) infile =
  let chunk := firstn CHUNK (skipn (position infile) (content infile)) in
  let infile' :=
    mkStream (content infile) (position infile + length chunk) in
  let data := lstrip [Byte.x00] chunk in
  match data with
  | _ :: _ => Some (IO.tell infile' - Z.of_nat (length data), infile')
  | [] => findFirstRecord fuel infile'
  end.
Proof. cbn [findFirstRecord IO.read]. reflexivity. Qed.

(** The scan from a cursor that has [k] zero bytes and then a non-zero
    byte ahead of it. *)
Lemma findFirstRecord_zero_run (fuel : nat) :
  forall (bytes : list byte) (pos k : nat) (b : byte) (rest : list byte),
    skipn pos bytes = repeat Byte.x00 k ++ b :: rest ->
    b <> Byte.x00 ->
    (k < fuel * CHUNK)%nat ->
    exists infile',
      findFirstRecord fuel (mkStream bytes pos)
      = Some (Z.of_nat (pos + k), infile').
Proof.
  pose proof CHUNK_pos as Hc.
  induction fuel as [|fuel IH]; intros bytes pos k b rest Hrem Hb Hk.
  - simpl in Hk. lia.
  - rewrite findFirstRecord_step. cbn [position content]. rewrite Hrem.
    destruct (Nat.lt_ge_cases k CHUNK) as [Hlt|Hge].
    + rewrite firstn_app, repeat_length.
      rewrite (firstn_all2 (n := CHUNK) (repeat Byte.x00 k))
        by (rewrite repeat_length; lia).
      destruct (CHUNK - k)%nat as [|j] eqn:Ej; [lia|].
      cbn [firstn]. rewrite lstrip_zeros_app, lstrip_nonzero by assumption.
      eexists. f_equal. f_equal.
      unfold IO.tell. cbn [position].
      rewrite length_app, repeat_length. cbn [length]. lia.
    + assert (Hchunk : firstn CHUNK (repeat Byte.x00 k ++ b :: rest)
                       = repeat Byte.x00 CHUNK).
      { rewrite firstn_app, repeat_length.
        replace (CHUNK - k)%nat with O by lia.
        rewrite firstn_O, app_nil_r.
        replace k with (CHUNK + (k - CHUNK))%nat at 1 by lia.
        rewrite repeat_app, firstn_app, repeat_length, Nat.sub_diag.
        rewrite firstn_O, app_nil_r.
        apply firstn_all2. rewrite repeat_length. lia. }
      rewrite Hchunk, repeat_length.
      replace (lstrip [Byte.x00] (repeat Byte.x00 CHUNK)) with (@nil byte).
      2:{ symmetry. apply lstrip_nil_iff. apply Forall_forall.
          intros x Hx. now apply repeat_spec in Hx. }
      destruct (IH bytes (pos + CHUNK)%nat (k - CHUNK)%nat b rest)
        as [infile' Hrun]; [|assumption|simpl in Hk; lia|].
      * rewrite Nat.add_comm, <- skipn_skipn, Hrem.
        replace k with (CHUNK + (k - CHUNK))%nat at 1 by lia.
        rewrite repeat_app, <- app_assoc, skipn_app, repeat_length.
        rewrite Nat.sub_diag. cbn [skipn].
        rewrite skipn_all2 by (rewrite repeat_length; lia). reflexivity.
      * exists infile'. rewrite Hrun. f_equal. f_equal. lia.
Qed.

(** With nothing but zero bytes (or nothing at all) ahead of the cursor
    the loop is still running after any number of iterations. *)
Lemma findFirstRecord_all_zero (fuel : nat) :
  forall infile,
    Forall (fun b => b = Byte.x00)
      (skipn (position infile) (content infile)) ->
    findFirstRecord fuel infile = None.
Proof.
  induction fuel as [|fuel IH]; intros infile Hz; [reflexivity|].
  rewrite findFirstRecord_step. cbv zeta.
  set (rem := skipn (position infile) (content infile)) in *.
  assert (Hstrip : lstrip [Byte.x00] (firstn CHUNK rem) = []).
  { apply lstrip_nil_iff. now apply Forall_firstn. }
  rewrite Hstrip. apply IH. cbn [position content].
  rewrite Nat.add_comm, <- skipn_skipn. fold rem.
  now apply Forall_skipn.
Qed.

(** C7: on a stream of [N] zero bytes followed by a non-zero byte (and
    anything after it), read from its start, [findFirstRecord] returns
    the offset [N] of that byte, however many all-zero 64 KiB chunks come
    first: [fuel] iterations are enough as soon as they cover [N + 1]
    bytes. *)
Theorem findFirstRecord_returns_padding_length
  (N : nat) (b : byte) (rest : list byte) (fuel : nat) :
  b <> Byte.x00 ->
  (N < fuel * CHUNK)%nat ->
  exists infile',
    findFirstRecord fuel (mkStream (repeat Byte.x00 N ++ b :: rest) 0)
    = Some (Z.of_nat N, infile').
Proof.
  intros Hb Hfuel.
  exact (findFirstRecord_zero_run fuel _ 0 N b rest eq_refl Hb Hfuel).
Qed.

(** C10: [findFirstRecord] returns (for some number of iterations) exactly
    when a non-zero byte lies at or after the cursor; when the rest of
    the stream is all zero bytes, or empty, the loop never ends: it is
    still running after every number of iterations. *)
Theorem findFirstRecord_terminates_iff_nonzero_ahead (infile : stream) :
  ((exists fuel r, findFirstRecord fuel infile = Some r) <->
   Exists (fun b => b <> Byte.x00)
     (skipn (position infile) (content infile)))
  /\
  ((forall fuel, findFirstRecord fuel infile = None) <->
   Forall (fun b => b = Byte.x00)
     (skipn (position infile) (content infile))).
Proof.
  set (rem := skipn (position infile) (content infile)).
  assert (Hdec : {Forall (fun b => b = Byte.x00) rem}
                 + {Exists (fun b => b <> Byte.x00) rem}).
  { apply Forall_Exists_dec. intros x. apply Byte.byte_eq_dec. }
  assert (Hrun : Exists (fun b => b <> Byte.x00) rem ->
                 exists fuel r, findFirstRecord fuel infile = Some r).
  { intros Hex. destruct (first_nonzero_split rem Hex) as (k & b & rest & Hrem & Hb).
    destruct infile as [bytes pos]. cbn [position content] in *.
    destruct (findFirstRecord_zero_run (S k) bytes pos k b rest Hrem Hb)
      as [infile' Hrun].
    - pose proof CHUNK_pos. nia.
    - eauto. }
  split; split.
  - intros (fuel & r & Hr). destruct Hdec as [Hall|Hex]; [|assumption].
    rewrite (findFirstRecord_all_zero fuel infile Hall) in Hr. discriminate.
  - exact Hrun.
  - intros Hnone. destruct Hdec as [Hall|Hex]; [assumption|].
    destruct (Hrun Hex) as (fuel & r & Hr). rewrite Hnone in Hr. discriminate.
  - intros Hall fuel. now apply findFirstRecord_all_zero.
Qed.

(** ** [findNextRecord] *)

Lemma read_rem (n : nat) (infile : stream) :
  IO.read n infile =
  (firstn n (skipn (position infile) (content infile)),
   mkStream (content infile)
     (position infile
      + length (firstn n (skipn (position infile) (content infile))))).
Proof. reflexivity. Qed.

(** The cursor after a read that reached the end of the file. *)
Lemma position_at_end (bytes : list byte) (pos : nat) :
  (pos + length (skipn pos bytes) = Nat.max pos (length bytes))%nat.
Proof. rewrite length_skipn. lia. Qed.

(** More iterations do not change a result already reached. *)
Lemma findNextRecord_fuel_mono (fuel : nat) :
  forall infile journalSize r (extra : nat),
    findNextRecord fuel infile journalSize = Some r ->
    findNextRecord (fuel + extra) infile journalSize = Some r.
Proof.
  induction fuel as [|fuel IH]; intros infile journalSize r extra H.
  - discriminate.
  - cbn [findNextRecord Nat.add] in *.
    destruct (try_read_length infile) as [[[off|]|e] infile1]; auto.
    destruct (is_StructError e); auto.
    destruct (IO.tell infile1 >=? journalSize); auto.
Qed.

(** The scan over a remainder without a non-zero length field runs to
    the end of the file and leaves by [sys.exit()]. *)
Lemma findNextRecord_exhausted (fuel : nat) :
  forall (bytes : list byte) (pos : nat) (journalSize : Z),
    zero_lengths (skipn pos bytes) = true ->
    journalSize <= Z.of_nat (length bytes) ->
    (length (skipn pos bytes) < 4 * fuel)%nat ->
    findNextRecord fuel (mkStream bytes pos) journalSize
    = Some (Raise SystemExit,
            mkStream bytes (Nat.max pos (length bytes))).
Proof.
  induction fuel as [|fuel IH]; intros bytes pos journalSize Hz Hsize Hfuel.
  - simpl in Hfuel. lia.
  - cbn [findNextRecord]. unfold try_read_length.
    rewrite read_rem. cbn [position content].
    pose proof (position_at_end bytes pos) as Hend.
    destruct (skipn pos bytes) as [|b0 [|b1 [|b2 [|b3 rem']]]] eqn:Hrem;
      try (cbn [firstn length] in *;
           unfold Struct.unpack_from_I, Struct.unpack_from_unsigned;
           cbn [length Nat.ltb Nat.leb is_StructError];
           unfold IO.tell; cbn [position]; rewrite Hend;
           replace (Z.of_nat (Nat.max pos (length bytes)) >=? journalSize)
             with true by (symmetry; apply Z.geb_le; lia);
           reflexivity).
    cbn [firstn]. unfold Struct.unpack_from_I, Struct.unpack_from_unsigned.
    cbn [length Nat.ltb Nat.leb firstn].
    cbn [zero_lengths] in Hz. apply andb_true_iff in Hz as [Hlen Hz].
    rewrite Hlen.
    assert (Hskip : skipn (pos + 4) bytes = rem').
    { rewrite Nat.add_comm, <- skipn_skipn, Hrem. reflexivity. }
    rewrite (IH bytes (pos + 4)%nat journalSize).
    + cbn [length] in Hend. do 2 f_equal. f_equal. lia.
    + now rewrite Hskip.
    + assumption.
    + rewrite Hskip. cbn [length] in Hfuel. lia.
Qed.

(** An exception that leaves [findNextRecord] leaves the record loop of
    [main], which has no handler: no record is written and the
    exception ends the process. *)
Lemma main_loop_propagates (py : Runtime) (rounds fuel : nat)
  (i i' : stream) (journalSize : Z) (e : PyExc) :
  findNextRecord fuel i journalSize = Some (Raise e, i') ->
  main_loop py (S rounds) fuel i journalSize = Some ([], e).
Proof.
  intros H. cbn [main_loop]. unfold main_iteration. now rewrite H.
Qed.

(** C2, as the code has it: when no non-zero length field is left ahead
    of the cursor and [journalSize] is at most the size of the file,
    [findNextRecord] does not return: it reads to the end of the file and
    calls [sys.exit()]. The [SystemExit] leaves [findNextRecord] and,
    unhandled, the record loop of [main]: the process ends there. *)
Theorem findNextRecord_end_of_journal_exits
  (py : Runtime) (infile : stream) (journalSize : Z) (fuel rounds : nat) :
  zero_lengths (skipn (position infile) (content infile)) = true ->
  journalSize <= IO.getsize infile ->
  (length (skipn (position infile) (content infile)) < 4 * fuel)%nat ->
  findNextRecord fuel infile journalSize
  = Some (Raise SystemExit,
          mkStream (content infile)
            (Nat.max (position infile) (length (content infile))))
  /\ main_loop py (S rounds) fuel infile journalSize = Some ([], SystemExit).
Proof.
  intros Hz Hsize Hfuel. destruct infile as [bytes pos].
  cbn [position content] in *. unfold IO.getsize in Hsize.
  cbn [content] in Hsize.
  pose proof (findNextRecord_exhausted fuel bytes pos journalSize
                Hz Hsize Hfuel) as Hexit.
  split; [exact Hexit|].
  eapply main_loop_propagates. exact Hexit.
Qed.

(** C2, the claim as stated fails: on a journal of eight zero bytes
    [findNextRecord] hands no value back to its caller, whatever the
    number of iterations allowed; it raises [SystemExit]. *)
Lemma findNextRecord_end_of_journal_not_returned :
  findNextRecord 3 (mkStream (repeat Byte.x00 8) 0) 8
  = Some (Raise SystemExit, mkStream (repeat Byte.x00 8) 8)
  /\ ~ (exists fuel offset infile',
           findNextRecord fuel (mkStream (repeat Byte.x00 8) 0) 8
           = Some (Ok offset, infile')).
Proof.
  assert (H3 : findNextRecord 3 (mkStream (repeat Byte.x00 8) 0) 8
               = Some (Raise SystemExit, mkStream (repeat Byte.x00 8) 8))
    by reflexivity.
  split; [exact H3|].
  intros (fuel & offset & infile' & Hret).
  apply (findNextRecord_fuel_mono _ _ _ _ 3) in Hret.
  apply (findNextRecord_fuel_mono _ _ _ _ fuel) in H3.
  rewrite Nat.add_comm, H3 in Hret. discriminate.
Qed.

(** ** [filenameHandler] *)

(** A read that asks for more bytes than are left. *)
Lemma filenameHandler_short_read (native : ByteOrder) (infile : stream)
  (filenameLength : Z) :
  Z.of_nat (length (skipn (position infile) (content infile)))
    < filenameLength ->
  filenameHandler native infile filenameLength
  = (Ok [],
     mkStream (content infile)
       (Nat.max (position infile) (length (content infile)))).
Proof.
  intros Hshort. unfold filenameHandler. rewrite read_rem.
  set (rem := skipn (position infile) (content infile)) in *.
  assert (Hn : (length rem < Z.to_nat filenameLength)%nat) by lia.
  rewrite firstn_all2 by lia.
  unfold Struct.unpack_from_s.
  apply Nat.ltb_lt in Hn. rewrite Hn. cbn [bind is_StructError].
  unfold rem. now rewrite position_at_end.
Qed.

(** ** Flag tables and [convertAttributes] *)

Section Expansion.

Variable T : OrderedDict.
Variable m : Z.

Lemma attributeList_In (name : string) :
  In name (attributeList T m) <->
  exists bit, In (bit, name) T /\ Z.land bit m <> 0.
Proof.
  unfold attributeList. rewrite in_map_iff. split.
  - intros ([bit name'] & Hname & Hin). cbn in Hname. subst name'.
    apply filter_In in Hin as [Hin Hkeep]. cbn in Hkeep.
    exists bit. split; [assumption|].
    apply negb_true_iff, Z.eqb_neq in Hkeep. assumption.
  - intros (bit & Hin & Hbit). exists (bit, name). split; [reflexivity|].
    apply filter_In. split; [assumption|]. cbn.
    apply negb_true_iff, Z.eqb_neq. assumption.
Qed.

Lemma attributeList_subsequence :
  subsequence (attributeList T m) (map snd T).
Proof.
  unfold attributeList. induction T as [|kv T' IH]; cbn [filter map].
  - constructor.
  - destruct (negb (Z.land (fst kv) m =? 0)); cbn [map];
      constructor; exact IH.
Qed.

Lemma attributeList_NoDup :
  NoDup (map snd T) -> NoDup (attributeList T m).
Proof.
  unfold attributeList. induction T as [|kv T' IH]; cbn [filter map];
    intros Hnd; [constructor|].
  inversion Hnd as [|? ? Hnotin Hnd']; subst.
  destruct (negb (Z.land (fst kv) m =? 0)); cbn [map]; [|auto].
  constructor; [|auto]. intros Hin. apply Hnotin.
  apply in_map_iff in Hin as (kv' & Heq & Hin).
  apply filter_In in Hin as [Hin _].
  apply in_map_iff. exists kv'. auto.
Qed.

Lemma attributeList_unlisted_bits (extra : Z) :
  (forall bit name, In (bit, name) T -> Z.land bit extra = 0) ->
  attributeList T (Z.lor m extra) = attributeList T m.
Proof.
  intros Hextra. unfold attributeList. f_equal.
  apply filter_ext_in. intros [bit name] Hin. cbn [fst].
  rewrite Z.land_lor_distr_r, (Hextra bit name Hin), Z.lor_0_r.
  reflexivity.
Qed.

End Expansion.

Lemma append_empty_r (s : string) : (s ++ EmptyString)%string = s.
Proof. induction s as [|c s IH]; cbn; congruence. Qed.

Lemma append_assoc_char (acc : string) (c : ascii) (w : string) :
  ((acc ++ String c EmptyString) ++ w)%string = (acc ++ String c w)%string.
Proof. induction acc as [|a acc IH]; cbn; congruence. Qed.

(** Reading the names back from a joined string. *)
Lemma words_from_no_blank (w : string) :
  forall acc rest,
    no_blank w = true ->
    words_from acc (w ++ rest) = words_from (acc ++ w) rest.
Proof.
  induction w as [|c w IH]; intros acc rest Hw; cbn [String.append].
  - now rewrite append_empty_r.
  - cbn [no_blank] in Hw. apply andb_true_iff in Hw as [Hc Hw].
    cbn [words_from]. apply negb_true_iff in Hc. rewrite Hc.
    rewrite IH by assumption. now rewrite append_assoc_char.
Qed.

Lemma words_join (l : list string) :
  forallb is_name l = true -> words (join " " l) = l.
Proof.
  unfold words. induction l as [|x l IH]; intros Hl; [reflexivity|].
  cbn [forallb] in Hl. apply andb_true_iff in Hl as [Hx Hl].
  assert (Hnb : no_blank x = true) by (destruct x; [discriminate|exact Hx]).
  destruct l as [|y l].
  - cbn [join]. rewrite <- (append_empty_r x) at 1.
    rewrite words_from_no_blank by assumption.
    cbn [String.append words_from]. destruct x; [discriminate|reflexivity].
  - change (join " " (x :: y :: l))
      with (x ++ String " " (join " " (y :: l)))%string.
    rewrite words_from_no_blank by assumption. cbn [String.append].
    cbn [words_from Ascii.eqb Bool.eqb]. rewrite IH by assumption.
    destruct x; [discriminate|reflexivity].
Qed.

Lemma forallb_attributeList (p : string -> bool) (T : OrderedDict) (m : Z) :
  forallb p (map snd T) = true -> forallb p (attributeList T m) = true.
Proof.
  rewrite !forallb_forall. intros H name Hin. apply H.
  apply attributeList_In in Hin as (bit & Hin & _).
  apply in_map_iff. exists (bit, name). auto.
Qed.

Ltac nodup_strings :=
  repeat (constructor; [cbn; intuition discriminate|]); constructor.

Lemma table_names (T : OrderedDict) :
  In T [reasons; attributes; sourceInfo] ->
  NoDup (map snd T) /\ forallb is_name (map snd T) = true.
Proof.
  intros [<-|[<-|[<-|[]]]]; (split; [nodup_strings|reflexivity]).
Qed.

(** C6: for each of the three flag tables [T] and every mask [m], the
    names in the string [convertAttributes T m] are exactly the names of
    [T] whose bit value has a non-zero bitwise AND with [m] (none left
    out, none added), in the order in which [T] declares them, each
    once; setting in [m] further bits that no entry of [T] has does not
    change the result. *)
Theorem convertAttributes_expands_set_bits (T : OrderedDict) (m : Z) :
  In T [reasons; attributes; sourceInfo] ->
  let names := words (convertAttributes T m) in
  names = map snd (filter (fun kv => negb (Z.land (fst kv) m =? 0)) T)
  /\ (forall name,
         In name names <->
         exists bit, In (bit, name) T /\ Z.land bit m <> 0)
  /\ subsequence names (map snd T)
  /\ NoDup names
  /\ (forall extra,
         (forall bit name, In (bit, name) T -> Z.land bit extra = 0) ->
         convertAttributes T (Z.lor m extra) = convertAttributes T m).
Proof.
  intros HT names. destruct (table_names T HT) as [Hnd Hnames].
  assert (Hw : names = attributeList T m).
  { apply words_join. now apply forallb_attributeList. }
  rewrite Hw. split; [reflexivity|]. split; [|split; [|split]].
  - intros name. apply attributeList_In.
  - apply attributeList_subsequence.
  - now apply attributeList_NoDup.
  - intros extra Hextra. unfold convertAttributes.
    now rewrite attributeList_unlisted_bits.
Qed.

(** The declared order is not the numeric order of the bits: [0x800000]
    is declared before [0x400000] in [reasons]. *)
Example convertAttributes_declared_order :
  convertAttributes reasons 0xC00000 = "INTEGRITY_CHANGE TRANSACTED_CHANGE"%string.
Proof. reflexivity. Qed.

(** C9, as the code has it: the change-reason table has 23 entries, with
    bit values from 0x1 up to 0x80000000 where CLOSE sits; the
    file-attribute table has 17 entries and the source-info table 4. *)
Theorem flag_table_sizes :
  length reasons = 23%nat
  /\ fold_right Z.min 0x80000000 (map fst reasons) = 0x1
  /\ fold_right Z.max 0 (map fst reasons) = 0x80000000
  /\ In (0x80000000, "CLOSE"%string) reasons
  /\ length attributes = 17%nat
  /\ length sourceInfo = 4%nat.
Proof. repeat split; try reflexivity. cbn. tauto. Qed.

(** C9, the claim as stated fails: the change-reason table does not have
    22 entries. *)
Lemma reasons_not_22_entries : length reasons <> 22%nat.
Proof. discriminate. Qed.

(** ** [convertFileReference] *)

Lemma convertFileReference_unfold (buf : Z) :
  convertFileReference buf =
  (b <- Struct.pack_Q buf ;;
   seq <- Struct.unpack_from_h (Struct.slice 6 8 b) ;;
   entry <- int_16 (fold_left append_hex (rev (Struct.slice 0 6 b))
                      EmptyString) ;;
   Ok (seq, entry)).
Proof. reflexivity. Qed.

Lemma format_x_byte (b : byte) :
  format_x (byte.unsigned b) <> EmptyString
  /\ all_hexdigits (format_x (byte.unsigned b)) = true.
Proof. destruct b; split; (discriminate || reflexivity). Qed.

Lemma all_hexdigits_app (s1 s2 : string) :
  all_hexdigits (s1 ++ s2) = all_hexdigits s1 && all_hexdigits s2.
Proof.
  induction s1 as [|c s1 IH]; cbn; [reflexivity|].
  now rewrite IH, andb_assoc.
Qed.

Lemma append_nonempty_r (s1 s2 : string) :
  s2 <> EmptyString -> (s1 ++ s2)%string <> EmptyString.
Proof. destruct s1; cbn; [auto|discriminate]. Qed.

Lemma byteString_hexdigits (l : list byte) :
  forall acc,
    all_hexdigits acc = true ->
    all_hexdigits (fold_left append_hex l acc) = true.
Proof.
  induction l as [|b l IH]; intros acc Hacc; cbn [fold_left]; [assumption|].
  apply IH. unfold append_hex. rewrite all_hexdigits_app, Hacc.
  apply format_x_byte.
Qed.

Lemma byteString_nonempty (l : list byte) :
  forall acc,
    l <> [] \/ acc <> EmptyString ->
    fold_left append_hex l acc <> EmptyString.
Proof.
  induction l as [|b l IH]; intros acc H; cbn [fold_left].
  - destruct H; congruence.
  - apply IH. right. apply append_nonempty_r, format_x_byte.
Qed.

Lemma int_16_hexdigits (s : string) :
  s <> EmptyString -> all_hexdigits s = true ->
  int_16 s = Ok (Z.of_N (HexString.Raw.to_N s 0%N)).
Proof.
  intros Hne Hhex. unfold int_16. rewrite Hhex.
  destruct s; [contradiction|reflexivity].
Qed.

Lemma format_x_byte_digits (b : byte) :
  (Byte.to_N b < 16 /\
   exists c0, format_x (byte.unsigned b) = String c0 EmptyString
              /\ HexString.ascii_to_digit c0 = Some (Byte.to_N b))%N
  \/
  (16 <= Byte.to_N b /\
   exists c1 c0 v1 v0,
     format_x (byte.unsigned b) = String c1 (String c0 EmptyString)
     /\ HexString.ascii_to_digit c1 = Some v1
     /\ HexString.ascii_to_digit c0 = Some v0
     /\ 16 * v1 + v0 = Byte.to_N b)%N.
Proof.
  destruct b;
    first [ left; split; [reflexivity|]; eexists; split; reflexivity
          | right; split; [discriminate|];
            do 4 eexists; repeat split; reflexivity ].
Qed.

Lemma to_N_app (s1 s2 : string) :
  forall acc,
    HexString.Raw.to_N (s1 ++ s2) acc
    = HexString.Raw.to_N s2 (HexString.Raw.to_N s1 acc).
Proof. induction s1 as [|c s1 IH]; intros acc; cbn; auto. Qed.

Lemma to_N_format_x_byte (b : byte) (acc : N) :
  HexString.Raw.to_N (format_x (byte.unsigned b)) acc = hex_step acc b.
Proof.
  unfold hex_step.
  destruct (format_x_byte_digits b)
    as [[Hlt (c0 & -> & H0)]|[Hge (c1 & c0 & v1 & v0 & -> & H1 & H0 & Hb)]].
  - apply N.ltb_lt in Hlt. rewrite Hlt.
    cbn [HexString.Raw.to_N]. rewrite H0. lia.
  - replace (Byte.to_N b <? 16)%N with false
      by (symmetry; apply N.ltb_ge; assumption).
    cbn [HexString.Raw.to_N]. rewrite H1, H0. lia.
Qed.

Lemma to_N_byteString (l : list byte) :
  forall acc,
    HexString.Raw.to_N (fold_left append_hex l acc) 0%N
    = fold_left hex_step l (HexString.Raw.to_N acc 0%N).
Proof.
  induction l as [|b l IH]; intros acc; cbn [fold_left]; [reflexivity|].
  rewrite IH. unfold append_hex at 1.
  now rewrite to_N_app, to_N_format_x_byte.
Qed.

Lemma le_combine_cons_add (h : byte) (t : list byte) :
  le_combine (h :: t) = byte.unsigned h + 256 * le_combine t.
Proof.
  change (le_combine (h :: t))
    with (Z.lor (byte.unsigned h) (Z.shiftl (le_combine t) 8)).
  pose proof (byte.unsigned_range h) as Hh.
  rewrite Z.or_to_plus.
  - rewrite Z.shiftl_mul_pow2 by lia. lia.
  - apply Z.bits_inj'. intros i Hi.
    rewrite Z.land_spec, Z.bits_0.
    destruct (Z.lt_ge_cases i 8) as [Hlo|Hhi].
    + rewrite (Z.shiftl_spec_low _ _ _ Hlo). apply andb_false_r.
    + replace (Z.testbit (byte.unsigned h) i) with false; [reflexivity|].
      symmetry. apply (Z.bits_above_log2 (byte.unsigned h) i); [lia|].
      destruct (Z.eq_dec (byte.unsigned h) 0) as [->|Hnz]; [cbn; lia|].
      apply Z.log2_lt_pow2; [lia|].
      apply Z.lt_le_trans with (2 ^ 8); [lia|].
      apply Z.pow_le_mono_r; lia.
Qed.

(** Six bytes of at least 0x10 each are read back as the little-endian
    number they encode. *)
Lemma hex_steps_two_digits (bs : list byte) :
  Forall (fun b => 16 <= byte.unsigned b) bs ->
  Z.of_N (fold_left hex_step (rev bs) 0%N) = le_combine bs.
Proof.
  induction 1 as [|b bs Hb _ IH]; [reflexivity|].
  cbn [rev]. rewrite fold_left_app. cbn [fold_left].
  rewrite le_combine_cons_add, <- IH. unfold hex_step.
  unfold byte.unsigned in *.
  replace (Byte.to_N b <? 16)%N with false
    by (symmetry; apply N.ltb_ge; lia).
  lia.
Qed.

Lemma pack_Q_in_range (v : Z) :
  0 <= v < 2 ^ 64 -> Struct.pack_Q v = Ok (le_split 8 v).
Proof.
  intros Hv. unfold Struct.pack_Q.
  replace ((0 <=? v) && (v <? 2 ^ 64)) with true; [reflexivity|].
  symmetry. apply andb_true_iff. split; [apply Z.leb_le|apply Z.ltb_lt]; lia.
Qed.

Lemma unpack_from_h_high_bytes (v : Z) :
  0 <= v < 2 ^ 64 ->
  Struct.unpack_from_h (Struct.slice 6 8 (le_split 8 v))
  = Ok (Struct.to_signed 16 (Z.shiftr v 48)).
Proof.
  intros Hv.
  unfold Struct.slice, Struct.unpack_from_h, Struct.unpack_from_unsigned.
  rewrite (skipn_le_split 6 8) by lia.
  change (8 - 6)%nat with 2%nat.
  rewrite firstn_all2 by (rewrite length_le_split; lia).
  rewrite length_le_split. cbn [Nat.ltb Nat.leb bind].
  rewrite firstn_all2 by (rewrite length_le_split; lia).
  rewrite le_combine_split. do 2 f_equal.
  change (8 * Z.of_nat 6) with 48. change (Z.of_nat 2 * 8) with 16.
  apply Z.mod_small. split.
  - apply Z.shiftr_nonneg. lia.
  - rewrite Z.shiftr_div_pow2 by lia.
    apply Z.div_lt_upper_bound; lia.
Qed.

Lemma byteString_int_16 (v : Z) :
  int_16 (fold_left append_hex (rev (Struct.slice 0 6 (le_split 8 v)))
            EmptyString)
  = Ok (Z.of_N (fold_left hex_step (rev (firstn 6 (le_split 8 v))) 0%N)).
Proof.
  rewrite int_16_hexdigits.
  - now rewrite to_N_byteString.
  - apply byteString_nonempty. left.
    intros Hnil. apply (f_equal (@length byte)) in Hnil.
    rewrite length_rev in Hnil. unfold Struct.slice in Hnil.
    rewrite length_firstn, length_skipn, length_le_split in Hnil.
    cbn in Hnil. discriminate.
  - apply byteString_hexdigits. reflexivity.
Qed.

(** What [convertFileReference] computes: the sequence number is the
    two high-order bytes read as a signed 16-bit integer, as the claim
    C1 has it; the entry number is read back from the hexadecimal digits
    of the six low-order bytes, one digit for a byte below 0x10. *)
Lemma convertFileReference_value (v : Z) :
  0 <= v < 2 ^ 64 ->
  convertFileReference v
  = Ok (Struct.to_signed 16 (Z.shiftr v 48),
        Z.of_N (fold_left hex_step (rev (firstn 6 (le_split 8 v))) 0%N)).
Proof.
  intros Hv. rewrite convertFileReference_unfold.
  rewrite pack_Q_in_range by assumption. cbn [bind].
  rewrite unpack_from_h_high_bytes by assumption. cbn [bind].
  rewrite byteString_int_16. reflexivity.
Qed.

(** Where every one of the six low-order bytes of [v] is at least 0x10,
    [convertFileReference] returns the pair of the claim C1. *)
Lemma convertFileReference_two_digit_bytes (v : Z) :
  0 <= v < 2 ^ 64 ->
  Forall (fun b => 16 <= byte.unsigned b) (firstn 6 (le_split 8 v)) ->
  convertFileReference v
  = Ok (Struct.to_signed 16 (Z.shiftr v 48), Z.land v 0xFFFFFFFFFFFF).
Proof.
  intros Hv Hbytes. rewrite convertFileReference_value by assumption.
  do 2 f_equal.
  rewrite hex_steps_two_digits by assumption.
  rewrite le_combine_firstn, le_combine_split.
  change (Z.of_nat 8 * 8) with 64. change (8 * Z.of_nat 6) with 48.
  rewrite (Z.mod_small v (2 ^ 64)) by lia.
  change 0xFFFFFFFFFFFF with (Z.ones 48).
  now rewrite Z.land_ones by lia.
Qed.

(** C1 at the entry number [0x105] (261): the bytes 00 00 00 00 01 05
    are formatted as the digits 0 0 0 0 1 5, without padding each byte to
    two digits, and read back as 0x15 (21); the value [v & 0xFFFFFFFFFFFF]
    of the claim is 261, and the pair does not rebuild [v]. *)
Theorem convertFileReference_unpadded_hex_digits :
  convertFileReference 0x105 = Ok (0, 0x15)
  /\ Z.land 0x105 0xFFFFFFFFFFFF = 0x105
  /\ Z.lor (Z.shiftl (0 mod 2 ^ 16) 48) 0x15 <> 0x105.
Proof. repeat split. discriminate. Qed.


(** ** [filenameHandler] and the [utf16] codec *)

(** A filename read in full is what the [utf16] codec makes of it. *)
Lemma filenameHandler_full_read (native : ByteOrder) (infile : stream)
  (filenameLength : Z) :
  0 <= filenameLength
    <= Z.of_nat (length (skipn (position infile) (content infile))) ->
  let n := Z.to_nat filenameLength in
  let name := firstn n (skipn (position infile) (content infile)) in
  filenameHandler native infile filenameLength
  = (match Utf16.decode native name with
     | Some text => Ok text
     | None => Raise UnicodeDecodeError
     end,
     mkStream (content infile) (position infile + n)).
Proof.
  intros Hlen n name. unfold filenameHandler. rewrite read_rem.
  fold n. fold name.
  assert (Hname : length name = n).
  { unfold name. rewrite length_firstn. lia. }
  unfold Struct.unpack_from_s. rewrite Hname, Nat.ltb_irrefl.
  cbn [bind]. rewrite firstn_all2 by lia.
  destruct (Utf16.decode native name); reflexivity.
Qed.

(** Without a byte order mark in front, on a little-endian host, the
    codec is the UTF-16 little-endian decoding. *)
Lemma decode_without_mark (bs : list byte) :
  firstn 2 bs <> [Byte.xff; Byte.xfe] ->
  firstn 2 bs <> [Byte.xfe; Byte.xff] ->
  Utf16.decode LittleEndian bs = Utf16.decode_le bs.
Proof.
  intros Hle Hbe. unfold Utf16.decode, Utf16.decode_le.
  destruct bs as [|b0 [|b1 bs]]; [reflexivity|destruct b0; reflexivity|].
  cbn [firstn] in Hle, Hbe.
  destruct b0; try reflexivity; destruct b1; try reflexivity; congruence.
Qed.

(** Where the claim C5 holds: on a little-endian host, a filename read
    in full that does not start with FF FE or FE FF is decoded as UTF-16
    little-endian (and an ill-formed one raises [UnicodeDecodeError]). *)
Lemma filenameHandler_without_mark (infile : stream) (filenameLength : Z) :
  0 <= filenameLength
    <= Z.of_nat (length (skipn (position infile) (content infile))) ->
  let n := Z.to_nat filenameLength in
  let name := firstn n (skipn (position infile) (content infile)) in
  firstn 2 name <> [Byte.xff; Byte.xfe] ->
  firstn 2 name <> [Byte.xfe; Byte.xff] ->
  filenameHandler LittleEndian infile filenameLength
  = (match Utf16.decode_le name with
     | Some text => Ok text
     | None => Raise UnicodeDecodeError
     end,
     mkStream (content infile) (position infile + n)).
Proof.
  intros Hlen n name Hle Hbe.
  rewrite (filenameHandler_full_read LittleEndian infile filenameLength Hlen).
  fold n. fold name. now rewrite decode_without_mark.
Qed.

(** C5 at the four bytes FF FE 61 00 (the name U+FEFF, "a"), all of them
    in the stream: [filenameHandler] returns "a", the [utf16] codec
    having taken the first two bytes for a byte order mark and dropped
    them, while the UTF-16 little-endian decoding of the four bytes is
    U+FEFF followed by "a". At FE FF 61 00 the codec switches to
    big-endian and returns U+6100 for the little-endian U+FFFE, "a". *)
Theorem filenameHandler_drops_byte_order_mark :
  filenameHandler LittleEndian
    (mkStream [Byte.xff; Byte.xfe; Byte.x61; Byte.x00] 0) 4
  = (Ok [0x61], mkStream [Byte.xff; Byte.xfe; Byte.x61; Byte.x00] 4)
  /\ Utf16.decode_le [Byte.xff; Byte.xfe; Byte.x61; Byte.x00]
     = Some [0xFEFF; 0x61]
  /\ filenameHandler LittleEndian
       (mkStream [Byte.xfe; Byte.xff; Byte.x61; Byte.x00] 0) 4
     = (Ok [0x6100], mkStream [Byte.xfe; Byte.xff; Byte.x61; Byte.x00] 4)
  /\ Utf16.decode_le [Byte.xfe; Byte.xff; Byte.x61; Byte.x00]
     = Some [0xFFFE; 0x61].
Proof. repeat split. Qed.

(** ** [filetimeToEpoch] *)

Lemma Qred_inject_Z (z : Z) : Qred (inject_Z z) = inject_Z z.
Proof.
  unfold Qred, inject_Z.
  pose proof (Z.ggcd_gcd z 1) as Hg.
  pose proof (Z.ggcd_correct_divisors z 1) as Hd.
  destruct (Z.ggcd z 1) as [g [aa bb]]. cbn [fst] in Hg.
  rewrite Z.gcd_1_r in Hg. subst g. destruct Hd as [Ha Hb].
  rewrite Z.mul_1_l in Ha, Hb. now subst aa bb.
Qed.

Lemma ilog2_mul (m d : Z) :
  0 < m -> 0 < d -> Float.ilog2 (m * d) d = Z.log2 m.
Proof.
  intros Hm Hd. unfold Float.ilog2, Float.scale2.
  pose proof (Z.log2_mul_below m d Hm Hd) as Hbelow.
  pose proof (Z.log2_mul_above m d (Z.lt_le_incl _ _ Hm) (Z.lt_le_incl _ _ Hd))
    as Habove.
  pose proof (Z.log2_nonneg m) as Hlm.
  pose proof (Z.log2_spec m Hm) as [Hlo Hhi].
  set (e0 := Z.log2 (m * d) - Z.log2 d) in *.
  assert (He0 : e0 = Z.log2 m \/ e0 = Z.log2 m + 1) by lia.
  destruct (Z.leb_spec 0 (- e0)) as [Hle|Hgt].
  - assert (e0 = 0) by lia. assert (Z.log2 m = 0) by lia.
    replace (- e0) with 0 by lia. rewrite Z.pow_0_r, Z.mul_1_r.
    destruct (Z.leb_spec d (m * d)) as [_|Hbad]; [lia|nia].
  - rewrite Z.opp_involutive.
    assert (Hpos : 0 < 2 ^ e0) by (apply Z.pow_pos_nonneg; lia).
    destruct He0 as [He|He].
    + rewrite He in *. destruct (Z.leb_spec (d * 2 ^ Z.log2 m) (m * d));
        [reflexivity|nia].
    + rewrite He in *. replace (Z.succ (Z.log2 m)) with (Z.log2 m + 1) in Hhi
        by lia.
      destruct (Z.leb_spec (d * 2 ^ (Z.log2 m + 1)) (m * d)); [nia|lia].
Qed.

(** A fraction whose value is an integer below [2^53] in magnitude is a
    double: rounding leaves it as it is. *)
Lemma RN_exact (z : Z) (d : positive) :
  Z.abs z < 2 ^ 53 -> Float.RN (Qmake (z * Zpos d) d) = inject_Z z.
Proof.
  intros Hz. unfold Float.RN. cbn [Qnum Qden].
  destruct (Z.eqb_spec (z * Zpos d) 0) as [H0|Hnz].
  - assert (z = 0) by nia. subst z. reflexivity.
  - assert (Hz0 : z <> 0) by (intros ->; apply Hnz; reflexivity).
    rewrite Z.abs_mul. change (Z.abs (Zpos d)) with (Zpos d).
    rewrite ilog2_mul by lia.
    assert (Hlog : Z.log2 (Z.abs z) < 53)
      by (apply Z.log2_lt_pow2; lia).
    pose proof (Z.log2_nonneg (Z.abs z)) as Hlog0.
    unfold Float.prec.
    set (k := 53 - 1 - Z.log2 (Z.abs z)).
    assert (Hk : 0 <= k) by (unfold k; lia).
    unfold Float.scale2. destruct (Z.leb_spec 0 k) as [_|Hbad]; [|lia].
    assert (Hround : Float.round_half_even (Z.abs z * Zpos d * 2 ^ k) (Zpos d)
                     = Z.abs z * 2 ^ k).
    { unfold Float.round_half_even.
      replace (Z.abs z * Zpos d * 2 ^ k) with (Z.abs z * 2 ^ k * Zpos d)
        by ring.
      rewrite Z.div_mul, Z.mod_mul by lia.
      destruct (Z.ltb_spec (2 * 0) (Zpos d)); [reflexivity|lia]. }
    rewrite Hround. unfold Float.ldexp_neg.
    destruct (Z.leb_spec 0 k) as [_|Hbad]; [|lia].
    rewrite <- Qred_inject_Z. apply Qred_complete.
    unfold Qeq, inject_Z. cbn [Qnum Qden].
    assert (Hpow : 0 < 2 ^ k) by (apply Z.pow_pos_nonneg; lia).
    rewrite Z2Pos.id by assumption.
    rewrite Z.sgn_mul. change (Z.sgn (Zpos d)) with 1.
    rewrite Z.mul_1_r.
    pose proof (Z.abs_sgn z) as Hsgn. nia.
Qed.

Lemma RN_inject_Z (z : Z) :
  Z.abs z < 2 ^ 53 -> Float.RN (inject_Z z) = inject_Z z.
Proof.
  intros Hz. rewrite <- (RN_exact z 1 Hz) at 2.
  unfold inject_Z. now rewrite Z.mul_1_r.
Qed.

(** On a whole number of milliseconds the float arithmetic is exact and
    [filetimeToEpoch] returns the value of the claim C3, also before
    1970. *)
Lemma filetimeToEpoch_whole_milliseconds (k : Z) :
  0 <= k < 2 ^ 53 ->
  filetimeToEpoch (10000 * k) = k - 11644473600000.
Proof.
  intros Hk. unfold filetimeToEpoch, Float.sub, Float.int_truediv, Float.of_int.
  assert (Hquot : Float.RN (Qmake (10000 * k) 1 / Qmake 10000 1)
                  = inject_Z k).
  { unfold Qdiv, Qmult, Qinv. cbn [Qnum Qden Pos.mul].
    replace (10000 * k * 1) with (k * Zpos 10000) by lia.
    apply RN_exact. lia. }
  rewrite Hquot, (RN_inject_Z 11644473600000) by (cbn; lia).
  assert (Hdiff : (inject_Z k - inject_Z 11644473600000)%Q
                  = inject_Z (k - 11644473600000)).
  { unfold Qminus, Qplus, Qopp, inject_Z. cbn [Qnum Qden Pos.mul].
    f_equal. lia. }
  rewrite Hdiff, RN_inject_Z by lia.
  unfold Float.to_int, inject_Z. cbn [Qnum Qden]. apply Z.quot_1_r.
Qed.

(** On a 64-bit FILETIME that is a multiple of 10000, a whole number of
    milliseconds, [filetimeToEpoch] returns exactly
    [t / 10000 - 11644473600000], also for a time before 1970. *)
Lemma filetimeToEpoch_multiple_of_10000 (t : Z) :
  0 <= t < 2 ^ 64 -> t mod 10000 = 0 ->
  filetimeToEpoch t = t / 10000 - 11644473600000.
Proof.
  intros Ht Hmod.
  assert (Hdiv : t = 10000 * (t / 10000))
    by (rewrite (Z.div_mod t 10000) at 1; lia).
  rewrite Hdiv at 1. apply filetimeToEpoch_whole_milliseconds.
  split; [apply Z.div_pos; lia|].
  apply Z.div_lt_upper_bound; lia.
Qed.

(** Rounding to the nearest integer stays between integer bounds. *)
Lemma round_half_even_between (n d A B : Z) :
  0 < d -> A * d <= n <= B * d ->
  A <= Float.round_half_even n d <= B.
Proof.
  intros Hd [HA HB]. unfold Float.round_half_even.
  pose proof (Z.div_mod n d ltac:(lia)) as Hdm.
  pose proof (Z.mod_pos_bound n d Hd) as Hr.
  set (q := n / d) in *. set (r := n mod d) in *.
  assert (HAq : A <= q) by nia.
  assert (HqB : q <= B) by nia.
  assert (Hup : q = B -> r = 0) by nia.
  destruct (Z.ltb_spec (2 * r) d).
  - lia.
  - assert (q < B) by (destruct (Z.eq_dec q B) as [E|E]; [specialize (Hup E)|]; lia).
    destruct (Z.ltb_spec d (2 * r)); [lia|].
    destruct (Z.even q); lia.
Qed.

Lemma ilog2_below_53 (a d : Z) :
  0 < a -> 0 < d -> a < 2 ^ 53 * d -> Float.ilog2 a d <= 52.
Proof.
  intros Ha Hd Hlt. unfold Float.ilog2, Float.scale2.
  pose proof (Z.log2_spec a Ha) as [Halo Hahi].
  pose proof (Z.log2_spec d Hd) as [Hdlo Hdhi].
  pose proof (Z.log2_nonneg a) as Hla. pose proof (Z.log2_nonneg d) as Hld.
  set (la := Z.log2 a) in *. set (ld := Z.log2 d) in *.
  assert (He0 : la - ld <= 53).
  { destruct (Z.le_gt_cases (la - ld) 53) as [|Hbig]; [assumption|exfalso].
    assert (Hp : 2 ^ (54 + ld) <= 2 ^ la) by (apply Z.pow_le_mono_r; lia).
    rewrite Z.pow_add_r in Hp by lia.
    replace (Z.succ ld) with (ld + 1) in Hdhi by lia.
    rewrite Z.pow_add_r in Hdhi by lia.
    change (2 ^ 54) with (2 * 2 ^ 53) in Hp. change (2 ^ 1) with 2 in Hdhi.
    nia. }
  destruct (Z.leb_spec 0 (- (la - ld))) as [Hneg|Hpos].
  - destruct (_ <=? _); lia.
  - rewrite Z.opp_involutive.
    destruct (Z.leb_spec (d * 2 ^ (la - ld)) a) as [Hle|Hgt]; [|lia].
    destruct (Z.eq_dec (la - ld) 53) as [E|E]; [|lia].
    rewrite E in Hle. lia.
Qed.

(** Rounding to a double stays between integer bounds below [2^53] in
    magnitude, since those integers are doubles. *)
Lemma RN_between (x : Q) (A B : Z) :
  - 2 ^ 53 < A -> B < 2 ^ 53 ->
  (inject_Z A <= x <= inject_Z B)%Q ->
  (inject_Z A <= Float.RN x <= inject_Z B)%Q.
Proof.
  intros HA HB [Hlo Hhi]. destruct x as [n d].
  unfold Qle, inject_Z in Hlo, Hhi. cbn [Qnum Qden] in Hlo, Hhi.
  rewrite Z.mul_1_r in Hlo, Hhi.
  unfold Float.RN. cbn [Qnum Qden].
  destruct (Z.eqb_spec n 0) as [Hn0|Hn0].
  - subst n. unfold Qle, inject_Z. cbn [Qnum Qden]. split; nia.
  - assert (Hd : 0 < Zpos d) by lia.
    assert (Ha : 0 < Z.abs n) by lia.
    assert (Hbound : Z.abs n < 2 ^ 53 * Zpos d) by nia.
    pose proof (ilog2_below_53 (Z.abs n) (Zpos d) Ha Hd Hbound) as Hlog.
    unfold Float.prec.
    set (k := 53 - 1 - Float.ilog2 (Z.abs n) (Zpos d)).
    assert (Hk : 0 <= k) by (unfold k; lia).
    assert (Hpow : 0 < 2 ^ k) by (apply Z.pow_pos_nonneg; lia).
    unfold Float.scale2, Float.ldexp_neg.
    destruct (Z.leb_spec 0 k) as [_|Hbad]; [|lia].
    rewrite !Qred_correct. unfold Qle, inject_Z. cbn [Qnum Qden].
    rewrite Z2Pos.id by assumption. rewrite !Z.mul_1_r.
    clearbody k. set (P := 2 ^ k) in *.
    destruct (Z.lt_total n 0) as [Hneg|[Hz|Hpos]]; [|contradiction|].
    + rewrite (Z.sgn_neg n Hneg), (Z.abs_neq n) in * by lia.
      assert (Hmax : - B * P <= Z.max (- B) 0 * P)
        by (apply Z.mul_le_mono_nonneg_r; lia).
      pose proof (round_half_even_between (- n * P) (Zpos d)
                    (Z.max (- B) 0 * P) (- A * P) Hd) as Hr.
      destruct Hr as [Hr1 Hr2]; [split; nia|]. split; lia.
    + rewrite (Z.sgn_pos n Hpos), (Z.abs_eq n) in * by lia.
      assert (Hmax : A * P <= Z.max A 0 * P)
        by (apply Z.mul_le_mono_nonneg_r; lia).
      pose proof (round_half_even_between (n * P) (Zpos d)
                    (Z.max A 0 * P) (B * P) Hd) as Hr.
      destruct Hr as [Hr1 Hr2]; [split; nia|]. split; lia.
Qed.

(** Truncation stays between integer bounds. *)
Lemma to_int_between (x : Q) (A B : Z) :
  (inject_Z A <= x <= inject_Z B)%Q -> A <= Float.to_int x <= B.
Proof.
  intros [Hlo Hhi]. destruct x as [n d].
  unfold Qle, inject_Z in Hlo, Hhi. cbn [Qnum Qden] in Hlo, Hhi.
  rewrite Z.mul_1_r in Hlo, Hhi.
  unfold Float.to_int. cbn [Qnum Qden].
  destruct (Z.le_gt_cases 0 n) as [Hn|Hn].
  - rewrite Z.quot_div_nonneg by lia.
    pose proof (Z.div_mod n (Zpos d) ltac:(lia)) as Hdm.
    pose proof (Z.mod_pos_bound n (Zpos d) ltac:(lia)) as Hr.
    split; nia.
  - replace n with (- (- n)) by lia. rewrite Z.quot_opp_l by lia.
    rewrite Z.quot_div_nonneg by lia.
    pose proof (Z.div_mod (- n) (Zpos d) ltac:(lia)) as Hdm.
    pose proof (Z.mod_pos_bound (- n) (Zpos d) ltac:(lia)) as Hr.
    split; nia.
Qed.

(** What [filetimeToEpoch] returns on a 64-bit FILETIME: the value of the
    claim C3 or one millisecond more. *)
Lemma filetimeToEpoch_within_one (t : Z) :
  0 <= t < 2 ^ 64 ->
  t / 10000 - 11644473600000 <= filetimeToEpoch t
  <= t / 10000 - 11644473600000 + 1.
Proof.
  intros Ht. unfold filetimeToEpoch, Float.sub, Float.int_truediv, Float.of_int.
  set (f := t / 10000).
  assert (Hf : 0 <= f < 2 ^ 51).
  { unfold f. split; [apply Z.div_pos; lia|].
    apply Z.div_lt_upper_bound; lia. }
  pose proof (Z.div_mod t 10000 ltac:(lia)) as Hdm.
  pose proof (Z.mod_pos_bound t 10000 ltac:(lia)) as Hr. fold f in Hdm.
  assert (Hy : (inject_Z f
                <= Float.RN (Qmake t 1 / Qmake 10000 1)
                <= inject_Z (f + 1))%Q).
  { apply RN_between; [lia|lia|].
    unfold Qdiv, Qmult, Qinv, Qle, inject_Z. cbn [Qnum Qden Pos.mul].
    split; lia. }
  rewrite (RN_inject_Z 11644473600000) by (cbn; lia).
  set (y := Float.RN (Qmake t 1 / Qmake 10000 1)) in *.
  apply to_int_between. apply RN_between; [lia|lia|].
  clearbody y. destruct y as [yn yd]. destruct Hy as [Hy1 Hy2].
  unfold Qle, Qminus, Qplus, Qopp, inject_Z in *.
  cbn [Qnum Qden] in *. split; nia.
Qed.

(** C3 at three FILETIME values. At 132223104000009999
    (2020-01-01 00:00:00.9999999 UTC) the float quotient
    13222310400000.9999 rounds to 13222310400001.0 and the function
    returns 1577836800001, one more than
    [floor(t / 10000) - 11644473600000]. At 5000 (before 1970) the
    float difference is -11644473599999.5, which [int] truncates
    towards zero to -11644473599999, one more than the floor. At
    116444735999999999, the last tick before 1970, the function returns
    0, which is not negative. *)
Theorem filetimeToEpoch_float_division :
  filetimeToEpoch 132223104000009999 = 1577836800001
  /\ 132223104000009999 / 10000 - 11644473600000 = 1577836800000
  /\ filetimeToEpoch 5000 = -11644473599999
  /\ 5000 / 10000 - 11644473600000 = -11644473600000
  /\ filetimeToEpoch 116444735999999999 = 0
  /\ 116444735999999999 / 10000 - 11644473600000 = -1.
Proof. repeat split; vm_compute; reflexivity. Qed.

(** ** [filetimeToHumanReadable] *)

(** The [except ValueError] clause: the function returns the string of
    the conversion, returns [None] when the conversion raises a
    [ValueError], and lets any other exception through. *)
Lemma filetimeToHumanReadable_cases
  (utcfromtimestamp_str : Q -> result string) (filetime : Z) :
  match utcfromtimestamp_str (unix_seconds filetime) with
  | Ok s =>
      filetimeToHumanReadable utcfromtimestamp_str filetime = Ok (Some s)
  | Raise e =>
      if is_ValueError e
      then filetimeToHumanReadable utcfromtimestamp_str filetime = Ok None
      else filetimeToHumanReadable utcfromtimestamp_str filetime = Raise e
  end.
Proof.
  unfold filetimeToHumanReadable.
  destruct (utcfromtimestamp_str (unix_seconds filetime)) as [s|e];
    [reflexivity|]. destruct (is_ValueError e); reflexivity.
Qed.

(** An exception of [filetimeToHumanReadable] fails the record. *)
Lemma parseUsn_timestamp_raises (py : Runtime) (infile infile' : stream)
  (h : UsnHeader) (name : list Z) (e : PyExc) :
  filenameHandler (byteorder py) infile (h_filenameLength h)
  = (Ok name, infile') ->
  filetimeToHumanReadable (utcfromtimestamp_str py) (h_timestamp h)
  = Raise e ->
  parseUsn py infile h = (Raise e, infile').
Proof.
  intros Hname Hstamp. unfold parseUsn. rewrite Hname, Hstamp. reflexivity.
Qed.

(** A record whose filename and timestamp are converted without an
    exception: the fields of the result, among them the filename that
    [filenameHandler] returned and the epoch timestamp, which is there
    whether or not the readable timestamp is [None]. *)
Lemma parseUsn_fields (py : Runtime) (infile infile' : stream)
  (h : UsnHeader) (name : list Z) (human : option string) :
  filenameHandler (byteorder py) infile (h_filenameLength h)
  = (Ok name, infile') ->
  filetimeToHumanReadable (utcfromtimestamp_str py) (h_timestamp h)
  = Ok human ->
  0 <= h_fileReferenceNumber h < 2 ^ 64 ->
  0 <= h_parentFileReferenceNumber h < 2 ^ 64 ->
  exists u,
    parseUsn py infile h = (Ok u, infile')
    /\ filename u = name
    /\ humanTimestamp u = human
    /\ epochTimestamp u = filetimeToEpoch (h_timestamp h)
    /\ reason u = convertAttributes reasons (h_reason h)
    /\ fileAttributes u = convertAttributes attributes (h_fileAttributes h)
    /\ convertFileReference (h_fileReferenceNumber h)
       = Ok (mftSeqNumber u, mftEntryNumber u)
    /\ convertFileReference (h_parentFileReferenceNumber h)
       = Ok (pMftSeqNumber u, pMftEntryNumber u).
Proof.
  intros Hname Hhuman Hown Hparent. unfold parseUsn.
  rewrite Hname, Hhuman.
  rewrite (convertFileReference_value _ Hown),
          (convertFileReference_value _ Hparent).
  cbn [bind fst snd]. eexists. split; [reflexivity|].
  cbn [filename humanTimestamp epochTimestamp reason fileAttributes
       mftSeqNumber mftEntryNumber pMftSeqNumber pMftEntryNumber].
  repeat split; reflexivity.
Qed.

(** C4 at the FILETIME values 0xFFFFFFFFFFFFFFFF and 0. On a runtime
    with a 32-bit [time_t] the timestamp 1833029933770.9551 is outside
    the range of [time_t] and [datetime.utcfromtimestamp] raises
    [OverflowError]; on a runtime whose [gmtime()] fails before 1970 the
    timestamp -11644473600 makes it raise [OSError]. [except ValueError]
    catches neither: the exception leaves [filetimeToHumanReadable], and
    on a journal of one 60-byte record with the timestamp 0 it leaves
    the record loop of [main] before the record is written. *)
Theorem filetimeToHumanReadable_lets_other_exceptions_through
  (gmtime_str : Q -> result string) :
  filetimeToHumanReadable (utcfromtimestamp_time_t 32 gmtime_str)
    0xFFFFFFFFFFFFFFFF = Raise OverflowError
  /\ filetimeToHumanReadable (utcfromtimestamp_from_1970 gmtime_str) 0
     = Raise OSError
  /\ main_loop
       (mkRuntime LittleEndian (utcfromtimestamp_from_1970 gmtime_str)) 1 1
       (mkStream (Byte.x3c :: repeat Byte.x00 59) 0) 60
     = Some ([], OSError).
Proof. repeat split. Qed.

(** ** The theorems at concrete inputs *)

(** C7 on 70000 zero bytes (more than one chunk) before a record length
    of 60. *)
Lemma findFirstRecord_returns_padding_length_witness :
  Byte.x3c <> Byte.x00
  /\ (Z.to_nat 70000 < 2 * CHUNK)%nat
  /\ exists infile',
       findFirstRecord 2
         (mkStream
            (repeat Byte.x00 (Z.to_nat 70000)
             ++ Byte.x3c :: [Byte.x00; Byte.x00; Byte.x00]) 0)
       = Some (Z.of_nat (Z.to_nat 70000), infile').
Proof.
  assert (Hb : Byte.x3c <> Byte.x00) by discriminate.
  assert (Hfuel : (Z.to_nat 70000 < 2 * CHUNK)%nat)
    by (apply Nat.ltb_lt; vm_compute; reflexivity).
  split; [exact Hb|]. split; [exact Hfuel|].
  exact (findFirstRecord_returns_padding_length
           (Z.to_nat 70000) Byte.x3c [Byte.x00; Byte.x00; Byte.x00] 2
           Hb Hfuel).
Defined.

(** C2 on a journal of eight zero bytes. *)
Lemma findNextRecord_end_of_journal_exits_witness :
  findNextRecord 3 (mkStream (repeat Byte.x00 8) 0) 8
  = Some (Raise SystemExit, mkStream (repeat Byte.x00 8) 8)
  /\ main_loop example_runtime 1 3 (mkStream (repeat Byte.x00 8) 0) 8
     = Some ([], SystemExit).
Proof.
  apply (findNextRecord_end_of_journal_exits example_runtime
           (mkStream (repeat Byte.x00 8) 0) 8 3 0).
  - reflexivity.
  - vm_compute. discriminate.
  - vm_compute. lia.
Defined.

(** C6 on the change-reason table and the mask 0xC00100. *)
Lemma convertAttributes_expands_set_bits_witness :
  In reasons [reasons; attributes; sourceInfo]
  /\ words (convertAttributes reasons 0xC00100)
     = map snd
         (filter (fun kv => negb (Z.land (fst kv) 0xC00100 =? 0)) reasons).
Proof.
  assert (HT : In reasons [reasons; attributes; sourceInfo])
    by (left; reflexivity).
  split; [exact HT|].
  exact (proj1 (convertAttributes_expands_set_bits reasons 0xC00100 HT)).
Defined.

(** ** The record loop on a journal whose last filename is cut short *)

Lemma field_range (off : nat) (buf : list byte) :
  0 <= field off 8 buf < 2 ^ 64.
Proof.
  unfold field, Struct.slice.
  pose proof (le_combine_bound (firstn (off + 8 - off) (skipn off buf)))
    as [Hlo Hhi].
  split; [assumption|].
  eapply Z.lt_le_trans; [exact Hhi|].
  apply Z.pow_le_mono_r; [lia|].
  rewrite length_firstn. lia.
Qed.

Lemma firstn_app_exact {A} (l1 l2 : list A) (n : nat) :
  length l1 = n -> firstn n (l1 ++ l2) = l1.
Proof.
  intros <-. rewrite firstn_app, Nat.sub_diag, firstn_O, app_nil_r.
  apply firstn_all.
Qed.

Lemma skipn_app_exact {A} (l1 l2 : list A) (n : nat) :
  length l1 = n -> skipn n (l1 ++ l2) = l2.
Proof.
  intros <-. rewrite skipn_app, Nat.sub_diag, skipn_all. reflexivity.
Qed.

(** The scan at the start of a record: the length is read, the cursor
    is put back, and the offset after the record is returned. *)
Lemma findNextRecord_at_record (fuel : nat) (bytes : list byte) (pos : nat)
  (len4 rest : list byte) (journalSize : Z) :
  skipn pos bytes = len4 ++ rest ->
  length len4 = 4%nat ->
  le_combine len4 <> 0 ->
  findNextRecord (S fuel) (mkStream bytes pos) journalSize
  = Some (Ok (Z.of_nat pos + le_combine len4), mkStream bytes pos).
Proof.
  intros Hrem Hlen Hnz. cbn [findNextRecord]. unfold try_read_length.
  rewrite read_rem. cbn [position content].
  rewrite Hrem, firstn_app_exact by assumption.
  unfold Struct.unpack_from_I, Struct.unpack_from_unsigned.
  rewrite Hlen. cbn [Nat.ltb Nat.leb].
  rewrite firstn_all2 by lia.
  destruct (Z.eqb_spec (le_combine len4) 0) as [|_]; [contradiction|].
  unfold IO.seek_cur, IO.seek, IO.tell. cbn [position content].
  destruct (Z.ltb_spec (Z.of_nat (pos + 4) + -4) 0) as [|_]; [lia|].
  replace (Z.to_nat (Z.of_nat (pos + 4) + -4)) with pos by lia.
  reflexivity.
Qed.

(** A journal whose last record declares a filename longer than the
    bytes that follow its header, and a record length that covers the
    header and the declared filename: the loop of [main] writes that
    record with an empty filename, with its epoch timestamp, and then
    ends by the [SystemExit] of [findNextRecord]. *)
Lemma main_loop_truncated_last_record (py : Runtime) (fuel : nat)
  (bytes : list byte) (pos : nat) (len4 hdr tail : list byte)
  (h : UsnHeader) (human : option string) :
  skipn pos bytes = len4 ++ hdr ++ tail ->
  length len4 = 4%nat ->
  length hdr = 56%nat ->
  le_combine len4 <> 0 ->
  unpack_from_2H4Q4I2H hdr = Ok h ->
  Z.of_nat (length tail) < h_filenameLength h ->
  60 + h_filenameLength h <= le_combine len4 ->
  filetimeToHumanReadable (utcfromtimestamp_str py) (h_timestamp h)
  = Ok human ->
  exists u,
    main_loop py 2 (S fuel) (mkStream bytes pos) (Z.of_nat (length bytes))
    = Some ([u], SystemExit)
    /\ filename u = []
    /\ humanTimestamp u = human
    /\ epochTimestamp u = filetimeToEpoch (h_timestamp h).
Proof.
  intros Hrem Hlen4 Hlen56 Hnz Hh Hshort Hinv Hhuman.
  pose proof (le_combine_bound len4) as [Hl0 _].
  assert (Hnext : Z.of_nat (length bytes) <= Z.of_nat pos + le_combine len4).
  { pose proof (f_equal (@length byte) Hrem) as Hlen.
    rewrite length_skipn, !length_app, Hlen4, Hlen56 in Hlen. lia. }
  (* the header fields that [convertFileReference] takes *)
  assert (Hfields : exists own parent,
             convertFileReference (h_fileReferenceNumber h) = Ok own
             /\ convertFileReference (h_parentFileReferenceNumber h)
                = Ok parent).
  { unfold unpack_from_2H4Q4I2H in Hh. rewrite Hlen56 in Hh.
    cbn [Nat.ltb Nat.leb] in Hh. injection Hh as <-.
    cbn [h_fileReferenceNumber h_parentFileReferenceNumber].
    do 2 eexists. split; apply convertFileReference_value, field_range. }
  destruct Hfields as (own & parent & Hown & Hparent).
  (* the stream after the header *)
  assert (Hpos60 : skipn (pos + 4 + 56) bytes = tail).
  { replace (pos + 4 + 56)%nat with (56 + (4 + pos))%nat by lia.
    rewrite <- !skipn_skipn, Hrem.
    rewrite skipn_app_exact by assumption.
    now rewrite skipn_app_exact by assumption. }
  assert (Hname : filenameHandler (byteorder py)
                    (mkStream bytes (pos + 4 + 56)) (h_filenameLength h)
                  = (Ok [], mkStream bytes
                              (Nat.max (pos + 4 + 56) (length bytes)))).
  { apply filenameHandler_short_read. cbn [position content].
    now rewrite Hpos60. }
  eexists. split.
  - cbn [main_loop]. unfold main_iteration at 1.
    rewrite (findNextRecord_at_record fuel bytes pos len4 (hdr ++ tail))
      by assumption.
    rewrite read_rem. cbn [position content].
    rewrite Hrem, firstn_app_exact by assumption.
    unfold Struct.unpack_from_I, Struct.unpack_from_unsigned.
    rewrite Hlen4. cbn [Nat.ltb Nat.leb].
    rewrite read_rem. cbn [position content].
    replace (skipn (pos + 4) bytes) with (hdr ++ tail).
    2:{ rewrite Nat.add_comm, <- skipn_skipn, Hrem.
        now rewrite skipn_app_exact by assumption. }
    rewrite firstn_app_exact by assumption. rewrite Hh, Hlen56.
    unfold parseUsn. rewrite Hname, Hhuman, Hown, Hparent. cbn [bind].
    unfold IO.seek. cbn [content].
    destruct (Z.ltb_spec (Z.of_nat pos + le_combine len4) 0) as [|_]; [lia|].
    unfold main_iteration.
    set (next := Z.to_nat (Z.of_nat pos + le_combine len4)).
    assert (Hpast : skipn next bytes = [])
      by (apply skipn_all2; unfold next; lia).
    rewrite (findNextRecord_exhausted (S fuel) bytes next
               (Z.of_nat (length bytes))).
    + reflexivity.
    + now rewrite Hpast.
    + lia.
    + rewrite Hpast. cbn [length]. lia.
  - cbn [filename humanTimestamp epochTimestamp]. auto.
Qed.





(** * Further properties of the script *)

(** ** [findNextRecord] between records *)

Lemma zero_words_skip (g : nat) (l : list byte) :
  skipn 4 (repeat Byte.x00 (4 * S g) ++ l) = repeat Byte.x00 (4 * g) ++ l.
Proof.
  replace (4 * S g)%nat with (4 + 4 * g)%nat by lia.
  rewrite repeat_app, <- app_assoc. reflexivity.
Qed.

(** The scan over [g] zero length fields and then a non-zero one. *)
Lemma findNextRecord_gap (fuel : nat) :
  forall (bytes : list byte) (pos g : nat) (len4 rest : list byte)
         (journalSize : Z),
    skipn pos bytes = repeat Byte.x00 (4 * g) ++ len4 ++ rest ->
    length len4 = 4%nat ->
    le_combine len4 <> 0 ->
    (g < fuel)%nat ->
    findNextRecord fuel (mkStream bytes pos) journalSize
    = Some (Ok (Z.of_nat (pos + 4 * g) + le_combine len4),
            mkStream bytes (pos + 4 * g)).
Proof.
  induction fuel as [|fuel IH];
    intros bytes pos g len4 rest journalSize Hrem Hlen Hnz Hfuel; [lia|].
  destruct g as [|g].
  - cbn [repeat Nat.mul app] in Hrem. rewrite Nat.add_0_r.
    now apply (findNextRecord_at_record fuel bytes pos len4 rest).
  - cbn [findNextRecord]. unfold try_read_length. rewrite read_rem.
    cbn [position content]. rewrite Hrem.
    replace (4 * S g)%nat with (4 + 4 * g)%nat by lia.
    rewrite repeat_app, <- app_assoc.
    rewrite firstn_app_exact by reflexivity.
    change (Struct.unpack_from_I (repeat Byte.x00 4)) with (@Ok Z 0).
    cbn [Z.eqb length repeat].
    rewrite (IH bytes (pos + 4)%nat g len4 rest journalSize);
      try assumption; try lia.
    + do 3 f_equal; lia.
    + rewrite Nat.add_comm, <- skipn_skipn, Hrem. apply zero_words_skip.
Qed.

(** With no non-zero length field ahead and a [journalSize] beyond the
    end of the file, the loop reads nothing more at the end of the file
    and never leaves. *)
Lemma findNextRecord_spins (fuel : nat) :
  forall (bytes : list byte) (pos : nat) (journalSize : Z),
    zero_lengths (skipn pos bytes) = true ->
    Z.of_nat (Nat.max pos (length bytes)) < journalSize ->
    findNextRecord fuel (mkStream bytes pos) journalSize = None.
Proof.
  induction fuel as [|fuel IH]; intros bytes pos journalSize Hz Hsize;
    [reflexivity|].
  cbn [findNextRecord]. unfold try_read_length.
  rewrite read_rem. cbn [position content].
  pose proof (position_at_end bytes pos) as Hend.
  destruct (skipn pos bytes) as [|b0 [|b1 [|b2 [|b3 rem']]]] eqn:Hrem;
    try (cbn [firstn length] in *;
         unfold Struct.unpack_from_I, Struct.unpack_from_unsigned;
         cbn [length Nat.ltb Nat.leb is_StructError];
         unfold IO.tell; cbn [position]; rewrite Hend;
         replace (Z.of_nat (Nat.max pos (length bytes)) >=? journalSize)
           with false by (symmetry; rewrite Z.geb_leb; apply Z.leb_gt; lia);
         apply IH;
         [rewrite skipn_all2 by lia; reflexivity | lia]).
  cbn [firstn]. unfold Struct.unpack_from_I, Struct.unpack_from_unsigned.
  cbn [length Nat.ltb Nat.leb firstn].
  cbn [zero_lengths] in Hz. apply andb_true_iff in Hz as [Hlen Hz].
  rewrite Hlen.
  assert (Hskip : skipn (pos + 4) bytes = rem').
  { rewrite Nat.add_comm, <- skipn_skipn, Hrem. reflexivity. }
  apply IH.
  - now rewrite Hskip.
  - cbn [length] in Hend. lia.
Qed.

(** ** The record loop on a journal laid out record after record *)

(** [parseUsn] reads the filename at the cursor and nothing else: the
    record it returns is the one decoded from the filename bytes alone,
    and the cursor moves by the filename length. *)
Lemma parseUsn_local (py : Runtime) (bytes body rest : list byte)
  (pos : nat) (h : UsnHeader) :
  skipn pos bytes = body ++ rest ->
  0 <= h_filenameLength h <= Z.of_nat (length body) ->
  parseUsn py (mkStream bytes pos) h
  = (fst (parseUsn py (mkStream body 0) h),
     mkStream bytes (pos + Z.to_nat (h_filenameLength h))).
Proof.
  intros Hrem Hlen. unfold parseUsn.
  rewrite (filenameHandler_full_read (byteorder py) (mkStream bytes pos))
    by (cbn [position content]; rewrite Hrem, length_app; lia).
  rewrite (filenameHandler_full_read (byteorder py) (mkStream body 0))
    by (cbn [position content skipn]; lia).
  cbn [position content skipn]. rewrite Hrem.
  rewrite firstn_app.
  replace (Z.to_nat (h_filenameLength h) - length body)%nat with O by lia.
  rewrite firstn_O, app_nil_r.
  destruct (Utf16.decode (byteorder py)
              (firstn (Z.to_nat (h_filenameLength h)) body));
    reflexivity.
Qed.

Lemma unpack_header_56 (hdr : list byte) :
  length hdr = 56%nat ->
  exists h, unpack_from_2H4Q4I2H hdr = Ok h
            /\ h_filenameLength h = field 52 2 hdr.
Proof.
  intros Hlen. unfold unpack_from_2H4Q4I2H. rewrite Hlen.
  cbn [Nat.ltb Nat.leb]. eexists. split; reflexivity.
Qed.

Lemma field_nonneg (off len : nat) (buf : list byte) : 0 <= field off len buf.
Proof. unfold field. apply le_combine_bound. Qed.

Lemma well_formed_spec (r : JournalRecord) :
  well_formed r = true ->
  length (jr_len4 r) = 4%nat
  /\ length (jr_hdr r) = 56%nat
  /\ le_combine (jr_len4 r) = Z.of_nat (60 + length (jr_body r))
  /\ field 52 2 (jr_hdr r) <= Z.of_nat (length (jr_body r)).
Proof.
  unfold well_formed. rewrite !andb_true_iff.
  intros [[[H4 H56] Hlen] Hname].
  apply Nat.eqb_eq in H4, H56. apply Z.eqb_eq in Hlen.
  apply Z.leb_le in Hname. auto.
Qed.

(** One pass of the loop over a well-formed record and the padding in
    front of it: the record is decoded as on its own, and the cursor is
    left at the end of the record. *)
Lemma main_iteration_record (py : Runtime) (fuel : nat)
  (bytes : list byte) (pos : nat) (r : JournalRecord) (rest : list byte)
  (journalSize : Z) :
  skipn pos bytes = jr_bytes r ++ rest ->
  well_formed r = true ->
  (jr_gap r < fuel)%nat ->
  main_iteration py fuel (mkStream bytes pos) journalSize
  = Some (match parse_record py r with
          | Ok u =>
              (Ok u, mkStream bytes (pos + length (jr_bytes r)))
          | Raise e =>
              (Raise e,
               mkStream bytes
                 (pos + 4 * jr_gap r + 60
                  + Z.to_nat (field 52 2 (jr_hdr r))))
          end).
Proof.
  intros Hrem Hwf Hfuel.
  apply well_formed_spec in Hwf as (H4 & H56 & Hlen & Hname).
  destruct r as [g len4 hdr body]. unfold jr_bytes in *.
  cbn [jr_gap jr_len4 jr_hdr jr_body] in *.
  rewrite <- !app_assoc in Hrem.
  destruct (unpack_header_56 hdr H56) as (h & Hh & Hfl).
  pose proof (field_nonneg 52 2 hdr) as Hfl0.
  set (p0 := (pos + 4 * g)%nat).
  assert (Hp0 : skipn p0 bytes = len4 ++ hdr ++ body ++ rest).
  { unfold p0. rewrite Nat.add_comm, <- skipn_skipn, Hrem.
    apply skipn_app_exact. apply repeat_length. }
  unfold main_iteration.
  rewrite (findNextRecord_gap fuel bytes pos g len4 (hdr ++ body ++ rest))
    by (assumption || lia).
  fold p0. rewrite read_rem. cbn [position content].
  rewrite Hp0, firstn_app_exact by assumption.
  unfold Struct.unpack_from_I, Struct.unpack_from_unsigned.
  rewrite H4. cbn [Nat.ltb Nat.leb].
  rewrite read_rem. cbn [position content].
  replace (skipn (p0 + 4) bytes) with (hdr ++ body ++ rest).
  2:{ rewrite Nat.add_comm, <- skipn_skipn, Hp0.
      now rewrite skipn_app_exact by assumption. }
  rewrite firstn_app_exact by assumption. rewrite Hh, H56.
  rewrite (parseUsn_local py bytes body rest (p0 + 4 + 56) h).
  2:{ replace (p0 + 4 + 56)%nat with (56 + (4 + p0))%nat by lia.
      rewrite <- !skipn_skipn, Hp0.
      rewrite skipn_app_exact by assumption.
      now rewrite skipn_app_exact by assumption. }
  2:{ rewrite Hfl. lia. }
  unfold parse_record. cbn [jr_hdr jr_body]. rewrite Hh.
  destruct (fst (parseUsn py (mkStream body 0) h)) as [u|e].
  - unfold IO.seek. cbn [content].
    destruct (Z.ltb_spec (Z.of_nat p0 + le_combine len4) 0) as [|_]; [lia|].
    do 3 f_equal. rewrite !length_app, repeat_length. unfold p0. lia.
  - rewrite Hfl. do 3 f_equal. unfold p0. lia.
Qed.

(** The loop over a journal of well-formed records with padding between
    them and zero length fields at the end yields what decoding the
    records one by one yields. *)
Lemma main_loop_journal (py : Runtime) (fuel : nat)
  (rs : list JournalRecord) :
  forall (bytes tail : list byte) (pos rounds : nat),
    skipn pos bytes = journal_bytes rs tail ->
    forallb well_formed rs = true ->
    zero_lengths tail = true ->
    Forall (fun r => (jr_gap r < fuel)%nat) rs ->
    (length tail < 4 * fuel)%nat ->
    (length rs < rounds)%nat ->
    main_loop py rounds fuel (mkStream bytes pos) (Z.of_nat (length bytes))
    = Some (decode_all py rs).
Proof.
  induction rs as [|r rs IH];
    intros bytes tail pos rounds Hrem Hwf Htail Hgaps Hfuel Hrounds;
    (destruct rounds as [|rounds]; [cbn [length] in Hrounds; lia|]).
  - cbn [journal_bytes flat_map app] in Hrem. cbn [decode_all].
    eapply main_loop_propagates.
    apply findNextRecord_exhausted; rewrite ?Hrem; auto. lia.
  - cbn [forallb] in Hwf. apply andb_true_iff in Hwf as [Hr Hwf].
    inversion Hgaps as [|? ? Hg Hgaps']; subst.
    unfold journal_bytes in Hrem. cbn [flat_map] in Hrem.
    rewrite <- app_assoc in Hrem. fold (journal_bytes rs tail) in Hrem.
    cbn [main_loop decode_all].
    rewrite (main_iteration_record py fuel bytes pos r
               (journal_bytes rs tail)) by assumption.
    destruct (parse_record py r) as [u|e]; [|reflexivity].
    rewrite (IH bytes tail (pos + length (jr_bytes r))%nat rounds);
      try assumption.
    + destruct (decode_all py rs). reflexivity.
    + rewrite Nat.add_comm, <- skipn_skipn, Hrem.
      now apply skipn_app_exact.
    + cbn [length] in Hrounds. lia.
Qed.

(** ** [main] *)

Lemma all_zero_repeat_bytes (l : list byte) :
  Forall (fun b => b = Byte.x00) l -> l = repeat Byte.x00 (length l).
Proof.
  induction 1 as [|b l Hb _ IH]; cbn [length repeat]; [reflexivity|].
  now rewrite Hb, <- IH.
Qed.

Lemma findFirstRecord_content (fuel : nat) :
  forall infile offset infile',
    findFirstRecord fuel infile = Some (offset, infile') ->
    content infile' = content infile.
Proof.
  induction fuel as [|fuel IH]; intros infile offset infile' H;
    [discriminate|].
  rewrite findFirstRecord_step in H. cbv zeta in H.
  destruct (lstrip [Byte.x00]
              (firstn CHUNK (skipn (position infile) (content infile)))).
  - apply IH in H. exact H.
  - injection H as _ <-. reflexivity.
Qed.

(** [main] on a file of [N] zero bytes, then well-formed records with
    padding between them, the first of which has a record length with a
    non-zero low byte, then zero length fields up to the end: the run
    yields the records decoded one by one, in order, and ends by
    [SystemExit] (or by the exception of the first record that raises). *)
Theorem main_decodes_journal (py : Runtime) (N : nat) (r : JournalRecord)
  (rs : list JournalRecord) (tail : list byte) (scan rounds fuel : nat) :
  jr_gap r = 0%nat ->
  hd Byte.x00 (jr_len4 r) <> Byte.x00 ->
  forallb well_formed (r :: rs) = true ->
  zero_lengths tail = true ->
  (N < scan * CHUNK)%nat ->
  Forall (fun r' => (jr_gap r' < fuel)%nat) (r :: rs) ->
  (length tail < 4 * fuel)%nat ->
  (length (r :: rs) < rounds)%nat ->
  main py scan rounds fuel (repeat Byte.x00 N ++ journal_bytes (r :: rs) tail)
  = Some (decode_all py (r :: rs)).
Proof.
  intros Hgap Hlow Hwf Htail Hscan Hgaps Hfuel Hrounds.
  set (file := repeat Byte.x00 N ++ journal_bytes (r :: rs) tail).
  assert (Hr : well_formed r = true)
    by (cbn [forallb] in Hwf; apply andb_true_iff in Hwf; tauto).
  apply well_formed_spec in Hr as (H4 & _).
  assert (Hfirst : exists b rest,
             journal_bytes (r :: rs) tail = b :: rest /\ b <> Byte.x00).
  { unfold journal_bytes. cbn [flat_map]. unfold jr_bytes. rewrite Hgap.
    cbn [Nat.mul repeat app].
    destruct (jr_len4 r) as [|b l]; [discriminate|].
    cbn [hd] in Hlow. cbn [app].
    exists b. eexists. split; [reflexivity|exact Hlow]. }
  destruct Hfirst as (b & rest & Hjb & Hb).
  destruct (findFirstRecord_zero_run scan file 0 N b rest) as [i Hfind];
    [unfold file; now rewrite Hjb|assumption|assumption|].
  unfold main. fold file. rewrite Hfind.
  pose proof (findFirstRecord_content _ _ _ _ Hfind) as Hcontent.
  cbn [content] in Hcontent.
  unfold IO.seek. rewrite Hcontent. cbn [Nat.add].
  destruct (Z.ltb_spec (Z.of_nat N) 0) as [|_]; [lia|].
  rewrite Nat2Z.id. unfold IO.getsize. cbn [content].
  apply (main_loop_journal py fuel (r :: rs) file tail N rounds);
    try assumption.
  unfold file. apply skipn_app_exact. apply repeat_length.
Qed.

(** [main] on a file of zero bytes only, or on an empty file, never
    gets to the record loop: [findFirstRecord] is still running after
    any number of iterations. *)
Theorem main_spins_on_zero_file (py : Runtime) (file : list byte)
  (scan rounds fuel : nat) :
  Forall (fun b => b = Byte.x00) file ->
  main py scan rounds fuel file = None.
Proof.
  intros Hzero. unfold main.
  now rewrite (findFirstRecord_all_zero scan (mkStream file 0)).
Qed.

(** A first record whose length is a multiple of 256 starts with a zero
    byte, which [findFirstRecord] takes for padding: the offset it
    returns is past the start of the record, inside its length field. *)
Theorem findFirstRecord_zero_low_byte (N : nat) (len4 rest : list byte)
  (fuel : nat) :
  length len4 = 4%nat ->
  le_combine len4 <> 0 ->
  le_combine len4 mod 256 = 0 ->
  (N + 4 <= fuel * CHUNK)%nat ->
  exists offset infile',
    findFirstRecord fuel (mkStream (repeat Byte.x00 N ++ len4 ++ rest) 0)
    = Some (offset, infile')
    /\ Z.of_nat N < offset < Z.of_nat N + 4.
Proof.
  intros Hlen Hnz Hmod Hfuel.
  destruct len4 as [|b0 l3]; [discriminate|].
  rewrite le_combine_cons_add in Hmod, Hnz.
  pose proof (byte.unsigned_range b0) as Hb0.
  assert (Hz0 : byte.unsigned b0 = 0).
  { rewrite (Z.mul_comm 256), Z.mod_add in Hmod by lia.
    rewrite Z.mod_small in Hmod by (change (2 ^ 8) with 256 in Hb0; lia).
    exact Hmod. }
  assert (Hb : b0 = Byte.x00) by (apply byte.unsigned_inj; now rewrite Hz0).
  subst b0.
  assert (Hex : Exists (fun b => b <> Byte.x00) l3).
  { destruct (Forall_Exists_dec (fun b => b = Byte.x00)
                (fun b => Byte.byte_eq_dec b Byte.x00) l3) as [Hall|Hex];
      [|exact Hex].
    exfalso. apply Hnz. rewrite Hz0.
    apply all_zero_repeat_bytes in Hall. rewrite Hall, le_combine_0. lia. }
  destruct (first_nonzero_split l3 Hex) as (k & b & rest' & Hl3 & Hb).
  assert (Hk : (k < 3)%nat).
  { apply (f_equal (@length byte)) in Hl3.
    rewrite length_app, repeat_length in Hl3. cbn [length] in *. lia. }
  destruct (findFirstRecord_zero_run fuel
              (repeat Byte.x00 N ++ (Byte.x00 :: l3) ++ rest) 0
              (N + 1 + k) b (rest' ++ rest)) as [infile' Hrun];
    [|assumption|lia|].
  - cbn [skipn]. rewrite Hl3.
    replace (N + 1 + k)%nat with (N + (1 + k))%nat by lia.
    rewrite repeat_app, <- !app_assoc. cbn [Nat.add repeat app].
    now rewrite <- app_assoc.
  - exists (Z.of_nat (0 + (N + 1 + k))), infile'. split; [exact Hrun|lia].
Qed.

(** ** The [utf16] codec and [filenameHandler], continued *)

Lemma list_ind2 {A} (P : list A -> Prop) :
  P [] -> (forall a, P [a]) ->
  (forall a b l, P l -> P (a :: b :: l)) ->
  forall l, P l.
Proof.
  intros H0 H1 H2.
  assert (H : forall l, P l /\ forall a, P (a :: l)).
  { induction l as [|b l [IHl IHa]]; split; auto. }
  intros l. apply H.
Qed.

Lemma code_units_spec (bo : ByteOrder) (bs : list byte) :
  snd (Utf16.code_units bo bs) = Nat.odd (length bs)
  /\ Forall (fun u => 0 <= u < 2 ^ 16) (fst (Utf16.code_units bo bs)).
Proof.
  induction bs as [| a | a b bs [IHleft IHrange]] using list_ind2.
  - split; [reflexivity|constructor].
  - split; [reflexivity|constructor].
  - cbn [Utf16.code_units].
    destruct (Utf16.code_units bo bs) as [us left]. cbn [fst snd] in *.
    split.
    + rewrite IHleft. cbn [length].
      now rewrite Nat.odd_succ, Nat.even_succ.
    + constructor; [|assumption].
      destruct bo;
        match goal with
        | |- 0 <= le_combine ?l < _ =>
            pose proof (le_combine_bound l) as Hb; cbn [length] in Hb;
            exact Hb
        end.
Qed.

Lemma Some_inj {A} (a b : A) : Some a = Some b -> a = b.
Proof. congruence. Qed.

Lemma code_points_scalar (us : list Z) :
  forall cps,
    Forall (fun u => 0 <= u < 2 ^ 16) us ->
    Utf16.code_points us = Some cps ->
    forallb is_scalar_value cps = true.
Proof.
  assert (H : forall n us, (length us <= n)%nat ->
              forall cps,
                Forall (fun u => 0 <= u < 2 ^ 16) us ->
                Utf16.code_points us = Some cps ->
                forallb is_scalar_value cps = true).
  { induction n as [|n IH]; intros l Hlen cps Hrange Hdec.
    - destruct l; [|cbn [length] in Hlen; lia].
      injection Hdec as <-. reflexivity.
    - destruct l as [|u l]; [injection Hdec as <-; reflexivity|].
      inversion Hrange as [|? ? Hu Hrange']; subst.
      cbn [Utf16.code_points] in Hdec.
      destruct (Utf16.is_high u) eqn:Hhigh.
      + destruct l as [|u2 l]; [discriminate|].
        destruct (Utf16.is_low u2) eqn:Hlow; [|discriminate].
        inversion Hrange' as [|? ? Hu2 Hrange'']; subst.
        destruct (Utf16.code_points l) as [cps'|] eqn:Hrest; [|discriminate].
        cbn [option_map] in Hdec. apply Some_inj in Hdec. subst cps.
        cbn [forallb]. apply andb_true_iff. split.
        * unfold Utf16.is_high, Utf16.is_low in *.
          apply andb_true_iff in Hhigh as [Hh1 Hh2].
          apply andb_true_iff in Hlow as [Hl1 Hl2].
          apply Z.leb_le in Hh1, Hh2, Hl1, Hl2.
          unfold is_scalar_value.
          rewrite !Z.shiftl_mul_pow2 by lia.
          repeat (apply andb_true_iff; split);
            [apply Z.leb_le; lia | apply Z.leb_le; lia |].
          apply negb_true_iff, andb_false_iff. right.
          apply Z.leb_gt. lia.
        * apply (IH l); [cbn [length] in Hlen; lia|assumption|assumption].
      + destruct (Utf16.is_low u) eqn:Hlow; [discriminate|].
        destruct (Utf16.code_points l) as [cps'|] eqn:Hrest; [|discriminate].
        cbn [option_map] in Hdec. apply Some_inj in Hdec. subst cps.
        cbn [forallb]. apply andb_true_iff. split.
        * unfold Utf16.is_high, Utf16.is_low, is_scalar_value in *.
          apply andb_false_iff in Hhigh, Hlow.
          repeat (apply andb_true_iff; split);
            [apply Z.leb_le; lia | apply Z.leb_le; lia |].
          apply negb_true_iff, andb_false_iff.
          destruct Hhigh as [Hh|Hh], Hlow as [Hl|Hl];
            apply Z.leb_gt in Hh, Hl;
            first [left; apply Z.leb_gt; lia | right; apply Z.leb_gt; lia].
        * apply (IH l); [cbn [length] in Hlen; lia|assumption|assumption]. }
  intros cps. apply (H (length us)). lia.
Qed.

(** What the [utf16] codec does with a byte order mark: it decodes the
    bytes, or the bytes after the first two, in one byte order. *)
Lemma decode_as_fixed (native : ByteOrder) (bs : list byte) :
  exists bo bs',
    Utf16.decode native bs = Utf16.decode_fixed bo bs'
    /\ Nat.odd (length bs') = Nat.odd (length bs).
Proof.
  destruct bs as [|b0 [|b1 bs]].
  - exists native, []. split; reflexivity.
  - exists native, [b0]. split; [destruct b0|]; reflexivity.
  - destruct b0;
      try (exists native; eexists; split; reflexivity);
      destruct b1;
      try (exists native; eexists; split; reflexivity).
    + exists BigEndian, bs. split; [reflexivity|].
      cbn [length]. now rewrite Nat.odd_succ, Nat.even_succ.
    + exists LittleEndian, bs. split; [reflexivity|].
      cbn [length]. now rewrite Nat.odd_succ, Nat.even_succ.
Qed.

Lemma decode_scalar (native : ByteOrder) (bs : list byte) (text : list Z) :
  Utf16.decode native bs = Some text ->
  forallb is_scalar_value text = true.
Proof.
  destruct (decode_as_fixed native bs) as (bo & bs' & -> & _).
  unfold Utf16.decode_fixed.
  destruct (code_units_spec bo bs') as [_ Hrange].
  destruct (Utf16.code_units bo bs') as [us left]. cbn [fst] in Hrange.
  destruct left; [discriminate|]. now apply code_points_scalar.
Qed.

Lemma decode_odd (native : ByteOrder) (bs : list byte) :
  Nat.odd (length bs) = true -> Utf16.decode native bs = None.
Proof.
  intros Hodd.
  destruct (decode_as_fixed native bs) as (bo & bs' & -> & Hpar).
  unfold Utf16.decode_fixed.
  destruct (code_units_spec bo bs') as [Hleft _].
  destruct (Utf16.code_units bo bs') as [us left]. cbn [snd] in Hleft.
  rewrite Hleft, Hpar, Hodd. reflexivity.
Qed.

(** The only exception that leaves [filenameHandler] is the
    [UnicodeDecodeError] of the codec. *)
Lemma filenameHandler_raises (native : ByteOrder) (infile infile' : stream)
  (filenameLength : Z) (e : PyExc) :
  filenameHandler native infile filenameLength = (Raise e, infile') ->
  e = UnicodeDecodeError.
Proof.
  unfold filenameHandler. rewrite read_rem.
  destruct (Struct.unpack_from_s _ _) as [name|e1] eqn:Hs; cbn [bind].
  - destruct (Utf16.decode native name); cbn [is_StructError];
      intros H; congruence.
  - unfold Struct.unpack_from_s in Hs.
    destruct (_ <? _)%nat; [|discriminate]. injection Hs as <-.
    cbn [is_StructError]. discriminate.
Qed.

(** Every filename that [filenameHandler] returns is made of Unicode
    scalar values: no surrogate code point gets into a record, on
    either byte order. *)
Theorem filenameHandler_scalar_values (native : ByteOrder)
  (infile infile' : stream) (filenameLength : Z) (text : list Z) :
  filenameHandler native infile filenameLength = (Ok text, infile') ->
  forallb is_scalar_value text = true.
Proof.
  unfold filenameHandler. rewrite read_rem.
  destruct (Struct.unpack_from_s _ _) as [name|e1]; cbn [bind].
  - destruct (Utf16.decode native name) as [t|] eqn:Hdec;
      cbn [is_StructError]; intros H; [|discriminate].
    injection H as <- _. now apply (decode_scalar native name).
  - destruct (is_StructError e1); intros H; [|discriminate].
    injection H as <- _. reflexivity.
Qed.

(** A filename of an odd declared length that is all in the stream is
    not decoded: [filenameHandler] raises [UnicodeDecodeError], which
    nothing in the script catches, with the cursor past the bytes read. *)
Theorem filenameHandler_odd_length (native : ByteOrder) (infile : stream)
  (filenameLength : Z) :
  0 <= filenameLength
    <= Z.of_nat (length (skipn (position infile) (content infile))) ->
  Z.odd filenameLength = true ->
  filenameHandler native infile filenameLength
  = (Raise UnicodeDecodeError,
     mkStream (content infile)
       (position infile + Z.to_nat filenameLength)).
Proof.
  intros Hlen Hodd.
  rewrite (filenameHandler_full_read native infile filenameLength Hlen).
  rewrite decode_odd; [reflexivity|].
  rewrite length_firstn, Nat.min_l by lia.
  rewrite <- Hodd. clear Hodd.
  destruct filenameLength as [|p|p]; [reflexivity| |lia].
  cbn [Z.to_nat Z.odd].
  destruct p; cbn [Z.odd];
    rewrite ?Pos2Nat.inj_xI, ?Pos2Nat.inj_xO;
    rewrite ?Nat.odd_succ, ?Nat.even_mul, ?Nat.odd_mul; reflexivity.
Qed.

(** ** [parseUsn] on an unpacked header *)

Lemma unpacked_references (buf : list byte) (h : UsnHeader) :
  unpack_from_2H4Q4I2H buf = Ok h ->
  0 <= h_fileReferenceNumber h < 2 ^ 64
  /\ 0 <= h_parentFileReferenceNumber h < 2 ^ 64.
Proof.
  unfold unpack_from_2H4Q4I2H. destruct (_ <? _)%nat; [discriminate|].
  intros H. apply (f_equal (fun r => match r with
                                     | Ok x => Some x
                                     | Raise _ => None
                                     end)) in H.
  apply Some_inj in H. subst h.
  cbn [h_fileReferenceNumber h_parentFileReferenceNumber].
  split; apply field_range.
Qed.

(** On a header unpacked from 56 bytes [parseUsn] raises in two cases
    only: the filename is not decodable ([UnicodeDecodeError]), or the
    timestamp conversion of the runtime raises an exception that is not
    a [ValueError]. It raises no [struct.error]: [convertFileReference]
    always gets a 64-bit value. *)
Theorem parseUsn_raises_only (py : Runtime) (infile infile' : stream)
  (buf : list byte) (h : UsnHeader) (e : PyExc) :
  unpack_from_2H4Q4I2H buf = Ok h ->
  parseUsn py infile h = (Raise e, infile') ->
  (e = UnicodeDecodeError
   /\ filenameHandler (byteorder py) infile (h_filenameLength h)
      = (Raise UnicodeDecodeError, infile'))
  \/ (is_ValueError e = false
      /\ utcfromtimestamp_str py (unix_seconds (h_timestamp h)) = Raise e).
Proof.
  intros Hh Hparse.
  destruct (unpacked_references buf h Hh) as [Hown Hparent].
  unfold parseUsn in Hparse.
  destruct (filenameHandler (byteorder py) infile (h_filenameLength h))
    as [[name|e1] s1] eqn:Hname.
  - right.
    rewrite (convertFileReference_value _ Hown),
            (convertFileReference_value _ Hparent) in Hparse.
    unfold filetimeToHumanReadable in Hparse.
    destruct (utcfromtimestamp_str py (unix_seconds (h_timestamp h)))
      as [str|e2]; cbn [bind] in Hparse; [discriminate|].
    destruct (is_ValueError e2) eqn:Hve; cbn [bind] in Hparse;
      [discriminate|].
    assert (e2 = e) by congruence. subst e2. auto.
  - left. pose proof (filenameHandler_raises _ _ _ _ _ Hname) as ->.
    assert (e = UnicodeDecodeError /\ s1 = infile') as [-> ->]
      by (split; congruence).
    auto.
Qed.

(** On a header unpacked from 56 bytes whose filename is decoded and
    whose timestamp the runtime converts or rejects with a
    [ValueError], [parseUsn] returns a record: the filename is the one
    [filenameHandler] returned, the readable timestamp is [None] in
    the [ValueError] case, the epoch timestamp is there in both, the
    flags are the expansions of the two masks, and the stream is as
    [filenameHandler] left it. *)
Theorem parseUsn_returns_record (py : Runtime) (infile infile' : stream)
  (buf : list byte) (h : UsnHeader) (name : list Z) :
  unpack_from_2H4Q4I2H buf = Ok h ->
  filenameHandler (byteorder py) infile (h_filenameLength h)
  = (Ok name, infile') ->
  (forall e, utcfromtimestamp_str py (unix_seconds (h_timestamp h)) = Raise e ->
             is_ValueError e = true) ->
  exists u,
    parseUsn py infile h = (Ok u, infile')
    /\ filename u = name
    /\ humanTimestamp u
       = match utcfromtimestamp_str py (unix_seconds (h_timestamp h)) with
         | Ok str => Some str
         | Raise _ => None
         end
    /\ epochTimestamp u = filetimeToEpoch (h_timestamp h)
    /\ reason u = convertAttributes reasons (h_reason h)
    /\ fileAttributes u = convertAttributes attributes (h_fileAttributes h)
    /\ sourceInfoField u = h_sourceInfo h
    /\ convertFileReference (h_fileReferenceNumber h)
       = Ok (mftSeqNumber u, mftEntryNumber u)
    /\ convertFileReference (h_parentFileReferenceNumber h)
       = Ok (pMftSeqNumber u, pMftEntryNumber u).
Proof.
  intros Hh Hname Hconv.
  destruct (unpacked_references buf h Hh) as [Hown Hparent].
  assert (Hhuman : filetimeToHumanReadable (utcfromtimestamp_str py)
                     (h_timestamp h)
                   = Ok match utcfromtimestamp_str py
                                (unix_seconds (h_timestamp h)) with
                        | Ok str => Some str
                        | Raise _ => None
                        end).
  { unfold filetimeToHumanReadable.
    destruct (utcfromtimestamp_str py (unix_seconds (h_timestamp h)))
      as [str|e] eqn:Hlib; [reflexivity|].
    now rewrite (Hconv e eq_refl). }
  destruct (parseUsn_fields py infile infile' h name _ Hname Hhuman
              Hown Hparent)
    as (u & Hu & Hf & Hht & Hep & Hre & Hfa & Ho & Hp).
  exists u. repeat split; try assumption.
  unfold parseUsn in Hu. rewrite Hname, Hhuman in Hu.
  rewrite (convertFileReference_value _ Hown),
          (convertFileReference_value _ Hparent) in Hu.
  cbn [bind] in Hu.
  apply (f_equal fst) in Hu. cbn [fst] in Hu.
  apply (f_equal (fun r => match r with
                           | Ok x => Some x
                           | Raise _ => None
                           end)) in Hu.
  apply Some_inj in Hu. subst u. reflexivity.
Qed.

(** ** [convertFileReference], continued *)

Lemma fold_step256 (bs : list byte) :
  Z.of_N (fold_left step256 (rev bs) 0%N) = le_combine bs.
Proof.
  induction bs as [|b bs IH]; [reflexivity|].
  cbn [rev]. rewrite fold_left_app. cbn [fold_left].
  rewrite le_combine_cons_add, <- IH. unfold step256, byte.unsigned. lia.
Qed.

Lemma hex_step_le (l : list byte) :
  forall a a', (a <= a')%N ->
               (fold_left hex_step l a <= fold_left step256 l a')%N.
Proof.
  induction l as [|b l IH]; intros a a' Ha; cbn [fold_left]; [assumption|].
  apply IH. unfold hex_step, step256.
  destruct (Byte.to_N b <? 16)%N; lia.
Qed.

Lemma to_signed_16_range (u : Z) :
  0 <= u < 2 ^ 16 -> - 2 ^ 15 <= Struct.to_signed 16 u < 2 ^ 15.
Proof.
  intros Hu. unfold Struct.to_signed. change (16 - 1) with 15.
  destruct (Z.ltb_spec u (2 ^ 15)); lia.
Qed.

Lemma low_six_bytes (v : Z) :
  0 <= v < 2 ^ 64 ->
  le_combine (firstn 6 (le_split 8 v)) = Z.land v 0xFFFFFFFFFFFF.
Proof.
  intros Hv. rewrite le_combine_firstn, le_combine_split.
  change (Z.of_nat 8 * 8) with 64. change (8 * Z.of_nat 6) with 48.
  rewrite (Z.mod_small v (2 ^ 64)) by lia.
  change 0xFFFFFFFFFFFF with (Z.ones 48).
  now rewrite Z.land_ones by lia.
Qed.

(** On every 64-bit value [convertFileReference] returns a pair and
    raises nothing: the sequence number is the 16 high-order bits read
    as a signed integer, and the entry number is never negative and
    never above the 48 low-order bits of the value. *)
Theorem convertFileReference_in_range (v : Z) :
  0 <= v < 2 ^ 64 ->
  exists seq entry,
    convertFileReference v = Ok (seq, entry)
    /\ seq = Struct.to_signed 16 (Z.shiftr v 48)
    /\ - 2 ^ 15 <= seq < 2 ^ 15
    /\ 0 <= entry <= Z.land v 0xFFFFFFFFFFFF.
Proof.
  intros Hv. do 2 eexists. split; [|split; [reflexivity|split]].
  - apply convertFileReference_value. assumption.
  - apply to_signed_16_range. split.
    + apply Z.shiftr_nonneg. lia.
    + rewrite Z.shiftr_div_pow2 by lia. apply Z.div_lt_upper_bound; lia.
  - split; [lia|].
    rewrite <- (low_six_bytes v Hv), <- fold_step256.
    apply N2Z.inj_le. apply hex_step_le. lia.
Qed.

(** Outside the 64-bit range [struct.pack] raises [struct.error] and so
    does [convertFileReference]. *)
Theorem convertFileReference_out_of_range (v : Z) :
  v < 0 \/ 2 ^ 64 <= v ->
  convertFileReference v = Raise StructError.
Proof.
  intros Hv. rewrite convertFileReference_unfold. unfold Struct.pack_Q.
  replace ((0 <=? v) && (v <? 2 ^ 64)) with false; [reflexivity|].
  symmetry. apply andb_false_iff.
  destruct Hv; [left; apply Z.leb_gt|right; apply Z.ltb_ge]; lia.
Qed.

(** A file reference whose six low-order bytes are all at least 0x10 is
    split as the packed layout has it: the signed 16 high-order bits and
    the 48 low-order bits. *)
Theorem convertFileReference_exact_on_two_digit_bytes (v : Z) :
  0 <= v < 2 ^ 64 ->
  Forall (fun b => 16 <= byte.unsigned b) (firstn 6 (le_split 8 v)) ->
  convertFileReference v
  = Ok (Struct.to_signed 16 (Z.shiftr v 48), Z.land v 0xFFFFFFFFFFFF)
  /\ Z.lor (Z.shiftl (Struct.to_signed 16 (Z.shiftr v 48) mod 2 ^ 16) 48)
           (Z.land v 0xFFFFFFFFFFFF) = v.
Proof.
  intros Hv Hbytes. split.
  - now apply convertFileReference_two_digit_bytes.
  - assert (Hhi : 0 <= Z.shiftr v 48 < 2 ^ 16).
    { split; [apply Z.shiftr_nonneg; lia|].
      rewrite Z.shiftr_div_pow2 by lia. apply Z.div_lt_upper_bound; lia. }
    assert (Hmod : Struct.to_signed 16 (Z.shiftr v 48) mod 2 ^ 16
                   = Z.shiftr v 48).
    { unfold Struct.to_signed. destruct (Z.ltb_spec (Z.shiftr v 48) (2 ^ (16 - 1))).
      - apply Z.mod_small. lia.
      - replace (Z.shiftr v 48 - 2 ^ 16)
          with (Z.shiftr v 48 + (-1) * 2 ^ 16) by lia.
        rewrite Z.mod_add by lia. apply Z.mod_small. lia. }
    rewrite Hmod. change 0xFFFFFFFFFFFF with (Z.ones 48).
    rewrite Z.land_ones by lia.
    rewrite Z.shiftr_div_pow2, Z.shiftl_mul_pow2 by lia.
    rewrite Z.or_to_plus.
    + pose proof (Z.div_mod v (2 ^ 48) ltac:(lia)). lia.
    + apply Z.bits_inj'. intros i Hi. rewrite Z.land_spec, Z.bits_0.
      destruct (Z.lt_ge_cases i 48) as [Hlo|Hhi'].
      * rewrite Z.mul_pow2_bits_low by lia. reflexivity.
      * rewrite Z.mod_pow2_bits_high by lia. apply andb_false_r.
Qed.

(** ** Flag strings and masks *)

Lemma names_functional (T : OrderedDict) (b1 b2 : Z) (name : string) :
  NoDup (map snd T) -> In (b1, name) T -> In (b2, name) T -> b1 = b2.
Proof.
  induction T as [|[k v] T IH]; intros Hnd H1 H2; [contradiction|].
  cbn [map snd] in Hnd. inversion Hnd as [|? ? Hnotin Hnd']; subst.
  destruct H1 as [E1|H1], H2 as [E2|H2].
  - congruence.
  - injection E1 as -> ->. exfalso. apply Hnotin.
    apply in_map_iff. exists (b2, name). auto.
  - injection E2 as -> ->. exfalso. apply Hnotin.
    apply in_map_iff. exists (b1, name). auto.
  - auto.
Qed.

(** A bit value with one bit set is in a mask or not. *)
Lemma land_single_bit (j m : Z) :
  0 <= j -> Z.land (2 ^ j) m = 0 \/ Z.land (2 ^ j) m = 2 ^ j.
Proof.
  intros Hj. destruct (Z.testbit m j) eqn:Hbit; [right|left];
    apply Z.bits_inj'; intros i Hi;
    rewrite Z.land_spec, Z.pow2_bits_eqb by assumption;
    destruct (Z.eqb_spec j i) as [->|Hne];
    rewrite ?Hbit, ?Z.bits_0; reflexivity.
Qed.

Lemma table_single_bits (T : OrderedDict) :
  In T [reasons; attributes; sourceInfo] ->
  forallb single_bit (map fst T) = true.
Proof. intros [<-|[<-|[<-|[]]]]; reflexivity. Qed.

Lemma land_table_mask (T : OrderedDict) (m : Z) :
  Z.land m (table_mask T)
  = fold_right Z.lor 0 (map (fun kv => Z.land (fst kv) m) T).
Proof.
  unfold table_mask. induction T as [|kv T IH]; cbn [map fold_right].
  - apply Z.land_0_r.
  - rewrite Z.land_lor_distr_r, IH. f_equal. apply Z.land_comm.
Qed.

Lemma land_in_table_mask (T : OrderedDict) (bit : Z) (name : string) (m : Z) :
  In (bit, name) T ->
  Z.land bit (Z.land m (table_mask T)) = Z.land bit m.
Proof.
  intros Hin. rewrite (Z.land_comm m), Z.land_assoc. f_equal.
  unfold table_mask. induction T as [|[k v] T IH]; [contradiction|].
  cbn [map fold_right fst]. destruct Hin as [E|Hin].
  - injection E as -> ->. apply Z.bits_inj'. intros i Hi.
    rewrite Z.land_spec, Z.lor_spec.
    destruct (Z.testbit bit i); reflexivity.
  - apply Z.bits_inj'. intros i Hi.
    rewrite Z.land_spec, Z.lor_spec.
    apply (f_equal (fun z => Z.testbit z i)) in IH; [|assumption].
    rewrite Z.land_spec in IH.
    destruct (Z.testbit bit i), (Z.testbit k i); cbn in *; auto.
Qed.

Lemma same_string_iff_same_mask (T : OrderedDict) (m1 m2 : Z) :
  In T [reasons; attributes; sourceInfo] ->
  convertAttributes T m1 = convertAttributes T m2
  <-> Z.land m1 (table_mask T) = Z.land m2 (table_mask T).
Proof.
  intros HT. destruct (table_names T HT) as [Hnd Hnames].
  pose proof (table_single_bits T HT) as Hbits.
  split.
  - intros Hstr.
    assert (Hlist : attributeList T m1 = attributeList T m2).
    { rewrite <- (words_join (attributeList T m1)),
              <- (words_join (attributeList T m2))
        by (now apply forallb_attributeList).
      unfold convertAttributes in Hstr. now rewrite Hstr. }
    rewrite !land_table_mask. f_equal.
    apply map_ext_in. intros [bit name] Hin. cbn [fst].
    assert (Hsame : Z.land bit m1 <> 0 <-> Z.land bit m2 <> 0).
    { assert (Hm : forall m, Z.land bit m <> 0 <-> In name (attributeList T m)).
      { intros m. rewrite attributeList_In. split.
        - intros Hnz. exists bit. auto.
        - intros (bit' & Hin' & Hnz).
          now rewrite (names_functional T bit bit' name Hnd Hin Hin'). }
      now rewrite !Hm, Hlist. }
    rewrite forallb_forall in Hbits.
    assert (Hsb : single_bit bit = true)
      by (apply Hbits, in_map_iff; exists (bit, name); auto).
    unfold single_bit in Hsb. apply andb_true_iff in Hsb as [_ Hpow].
    apply Z.eqb_eq in Hpow.
    pose proof (Z.log2_nonneg bit) as Hlog.
    destruct (land_single_bit (Z.log2 bit) m1 Hlog) as [H1|H1],
             (land_single_bit (Z.log2 bit) m2 Hlog) as [H2|H2];
      rewrite <- Hpow in H1, H2; try congruence.
    + exfalso. assert (Z.land bit m2 <> 0) as Hnz.
      { rewrite H2. intros Hz. rewrite Hz in Hpow.
        pose proof (Z.pow_pos_nonneg 2 (Z.log2 0)). cbn in Hpow. lia. }
      apply Hsame in Hnz. contradiction.
    + exfalso. assert (Z.land bit m1 <> 0) as Hnz.
      { rewrite H1. intros Hz. rewrite Hz in Hpow.
        pose proof (Z.pow_pos_nonneg 2 (Z.log2 0)). cbn in Hpow. lia. }
      apply Hsame in Hnz. contradiction.
  - intros Hmask. unfold convertAttributes, attributeList. do 2 f_equal.
    apply filter_ext_in. intros [bit name] Hin. cbn [fst].
    rewrite <- (land_in_table_mask T bit name m1 Hin),
            <- (land_in_table_mask T bit name m2 Hin), Hmask.
    reflexivity.
Qed.

(** The flag string of a mask tells, and tells no more than, the bits of
    the mask that the table has: two masks give the same string exactly
    when they agree on the bits of the table. *)
Theorem convertAttributes_same_string_iff (T : OrderedDict) (m1 m2 : Z) :
  In T [reasons; attributes; sourceInfo] ->
  convertAttributes T m1 = convertAttributes T m2
  <-> Z.land m1 (table_mask T) = Z.land m2 (table_mask T).
Proof. apply same_string_iff_same_mask. Qed.

Lemma convertAttributes_zero (T : OrderedDict) :
  convertAttributes T 0 = EmptyString.
Proof.
  unfold convertAttributes, attributeList.
  replace (filter (fun kv => negb (Z.land (fst kv) 0 =? 0)) T)
    with (@nil (Z * string)); [reflexivity|].
  symmetry. induction T as [|kv T IH]; [reflexivity|].
  cbn [filter]. rewrite Z.land_0_r. exact IH.
Qed.

(** The flag string is empty exactly when the mask has none of the bits
    of the table. *)
Theorem convertAttributes_empty_iff (T : OrderedDict) (m : Z) :
  In T [reasons; attributes; sourceInfo] ->
  convertAttributes T m = EmptyString
  <-> Z.land m (table_mask T) = 0.
Proof.
  intros HT. rewrite <- (convertAttributes_zero T).
  rewrite (same_string_iff_same_mask T m 0 HT).
  rewrite Z.land_0_l. reflexivity.
Qed.

(** ** The [timestamp] field: [f"{timestamp:016x}"] *)

Fixpoint of_pos_hexdigits (p : positive) (rest : string) {struct p} :
  all_hexdigits (HexString.Raw.of_pos p rest) = all_hexdigits rest.
Proof.
  do 4 try destruct p as [p|p|]; try reflexivity;
    cbn [HexString.Raw.of_pos]; rewrite of_pos_hexdigits; reflexivity.
Qed.

Fixpoint of_pos_length (p : positive) (rest : string) {struct p} :
  (4 * String.length (HexString.Raw.of_pos p rest)
   <= Pos.size_nat p + 3 + 4 * String.length rest)%nat.
Proof.
  do 4 try destruct p as [p|p|];
    try (cbn [HexString.Raw.of_pos String.length Pos.size_nat]; lia);
    cbn [HexString.Raw.of_pos Pos.size_nat];
    (eapply Nat.le_trans; [apply of_pos_length|]);
    cbn [String.length]; lia.
Qed.

Lemma string_length_append (s1 s2 : string) :
  String.length (s1 ++ s2) = (String.length s1 + String.length s2)%nat.
Proof. induction s1 as [|c s1 IH]; cbn; congruence. Qed.

Lemma zeros_str_spec (n : nat) :
  String.length (zeros_str n) = n
  /\ all_hexdigits (zeros_str n) = true
  /\ forall acc, HexString.Raw.to_N (zeros_str n) acc
                 = (16 ^ N.of_nat n * acc)%N.
Proof.
  induction n as [|n (IHlen & IHhex & IHval)].
  - repeat split. intros acc.
    cbn [zeros_str HexString.Raw.to_N N.of_nat]. rewrite N.pow_0_r. lia.
  - split; [|split].
    + cbn [zeros_str String.length]. now rewrite IHlen.
    + cbn [zeros_str all_hexdigits]. now rewrite IHhex.
    + intros acc. cbn [zeros_str HexString.Raw.to_N].
      change (HexString.ascii_to_digit "0") with (Some 0%N).
      rewrite IHval, Nat2N.inj_succ, N.pow_succ_r by lia. lia.
Qed.

Lemma format_x_digits (i : Z) :
  0 <= i < 2 ^ 64 ->
  (String.length (format_x i) <= 16)%nat
  /\ all_hexdigits (format_x i) = true
  /\ HexString.Raw.to_N (format_x i) 0%N = Z.to_N i.
Proof.
  intros Hi. destruct i as [|p|p]; [repeat split; cbn; lia| |lia].
  cbn [format_x]. split; [|split].
  - pose proof (of_pos_length p EmptyString) as Hlen.
    cbn [String.length] in Hlen.
    assert (Hsize : (Pos.size_nat p <= 64)%nat).
    { assert (E : 2 ^ 64 = Z.pos (Pos.succ 18446744073709551615))
        by (vm_compute; reflexivity).
      assert (Hs : Pos.size_nat 18446744073709551615 = 64%nat)
        by (vm_compute; reflexivity).
      destruct Hi as [_ Hlt]. rewrite E in Hlt. unfold Z.lt in Hlt.
      rewrite <- Pos2Z.inj_compare in Hlt.
      apply Pos.lt_succ_r, Pos.lt_eq_cases in Hlt as [Hlt|Heq].
      - apply Pos.size_nat_monotone in Hlt. rewrite Hs in Hlt. exact Hlt.
      - rewrite Heq, Hs. apply Nat.le_refl. }
    lia.
  - now rewrite of_pos_hexdigits.
  - now rewrite HexString.Raw.to_N_of_pos.
Qed.

(** The [timestamp] field of a record is the FILETIME written with
    exactly 16 hexadecimal digits, and reading the digits back gives the
    FILETIME again. *)
Theorem format_016x_round_trip (filetime : Z) :
  0 <= filetime < 2 ^ 64 ->
  String.length (format_016x filetime) = 16%nat
  /\ int_16 (format_016x filetime) = Ok filetime.
Proof.
  intros Ht. destruct (format_x_digits filetime Ht) as (Hlen & Hhex & Hval).
  destruct (zeros_str_spec (16 - String.length (format_x filetime)))
    as (Hzlen & Hzhex & Hzval).
  assert (Hlen16 : String.length (format_016x filetime) = 16%nat).
  { unfold format_016x. rewrite string_length_append, Hzlen. lia. }
  split; [exact Hlen16|].
  rewrite int_16_hexdigits.
  - unfold format_016x. rewrite to_N_app, Hzval, N.mul_0_r, Hval.
    f_equal. lia.
  - intros Hempty. rewrite Hempty in Hlen16. discriminate.
  - unfold format_016x. now rewrite all_hexdigits_app, Hzhex, Hhex.
Qed.

(** ** The seconds of the body file lines *)

(** The range of [filetimeToEpoch] on 64-bit values. *)
Lemma filetimeToEpoch_bounds (t : Z) :
  0 <= t < 2 ^ 64 ->
  - 11644473600000 <= filetimeToEpoch t <= 1833029933770956.
Proof.
  intros Ht. pose proof (filetimeToEpoch_within_one t Ht) as [Hlo Hhi].
  assert (0 <= t / 10000) by (apply Z.div_pos; lia).
  assert (t / 10000 < 1844674407370956)
    by (apply Z.div_lt_upper_bound; lia).
  lia.
Qed.



Lemma ilog2_below (a d p : Z) :
  0 < a -> 0 < d -> 1 <= p -> a < 2 ^ p * d -> Float.ilog2 a d <= p - 1.
Proof.
  intros Ha Hd Hp Hlt. unfold Float.ilog2, Float.scale2.
  pose proof (Z.log2_spec a Ha) as [Halo Hahi].
  pose proof (Z.log2_spec d Hd) as [Hdlo Hdhi].
  pose proof (Z.log2_nonneg a) as Hla. pose proof (Z.log2_nonneg d) as Hld.
  set (la := Z.log2 a) in *. set (ld := Z.log2 d) in *.
  assert (HP : 0 < 2 ^ p) by (apply Z.pow_pos_nonneg; lia).
  assert (He0 : la - ld <= p).
  { destruct (Z.le_gt_cases (la - ld) p) as [|Hbig]; [assumption|exfalso].
    assert (Hpow : 2 ^ (p + 1 + ld) <= 2 ^ la)
      by (apply Z.pow_le_mono_r; lia).
    rewrite !Z.pow_add_r in Hpow by lia.
    replace (Z.succ ld) with (ld + 1) in Hdhi by lia.
    rewrite Z.pow_add_r in Hdhi by lia.
    change (2 ^ 1) with 2 in *.
    set (P := 2 ^ p) in *. set (L := 2 ^ ld) in *.
    assert (P * d < P * (L * 2)) by (apply Z.mul_lt_mono_pos_l; lia).
    nia. }
  destruct (Z.leb_spec 0 (- (la - ld))) as [Hneg|Hpos].
  - destruct (_ <=? _); lia.
  - rewrite Z.opp_involutive.
    destruct (Z.leb_spec (d * 2 ^ (la - ld)) a) as [Hle|Hgt]; [|lia].
    destruct (Z.eq_dec (la - ld) p) as [E|E]; [|lia].
    rewrite E in Hle. lia.
Qed.

(** Rounding to a double stays between two bounds that are multiples of
    [2^-j] below [2^53 * 2^-j] in magnitude, which are doubles. The
    bounds [A / 2^j] and [B / 2^j] and the inequalities are written on
    numerators and denominators. *)
Lemma RN_between_dyadic (x : Q) (A B j : Z) :
  0 <= j <= 52 ->
  - 2 ^ 53 < A -> B < 2 ^ 53 ->
  A * QDen x <= Qnum x * 2 ^ j <= B * QDen x ->
  A * QDen (Float.RN x) <= Qnum (Float.RN x) * 2 ^ j
  <= B * QDen (Float.RN x).
Proof.
  intros Hj HA HB [Hlo Hhi]. destruct x as [n d]. cbn [Qnum Qden] in Hlo, Hhi.
  assert (HJ : 0 < 2 ^ j) by (apply Z.pow_pos_nonneg; lia).
  unfold Float.RN. cbn [Qnum Qden].
  destruct (Z.eqb_spec n 0) as [Hn0|Hn0].
  - subst n. cbn [Qnum Qden]. lia.
  - assert (Hd : 0 < Zpos d) by lia.
    assert (Ha : 0 < Z.abs n) by lia.
    assert (Hsplit : 2 ^ 53 = 2 ^ (53 - j) * 2 ^ j)
      by (rewrite <- Z.pow_add_r by lia; f_equal; lia).
    assert (HJ' : 0 < 2 ^ (53 - j)) by (apply Z.pow_pos_nonneg; lia).
    assert (Hbound : Z.abs n < 2 ^ (53 - j) * Zpos d).
    { apply (Z.mul_lt_mono_pos_r (2 ^ j)); [assumption|].
      rewrite <- Z.mul_assoc, (Z.mul_comm (Zpos d)), Z.mul_assoc, <- Hsplit.
      destruct (Z.abs_spec n) as [[_ ->]|[_ ->]]; nia. }
    pose proof (ilog2_below (Z.abs n) (Zpos d) (53 - j) Ha Hd ltac:(lia)
                  Hbound) as Hlog.
    unfold Float.prec.
    set (k := 53 - 1 - Float.ilog2 (Z.abs n) (Zpos d)).
    assert (Hk : j <= k) by (unfold k; lia).
    unfold Float.scale2, Float.ldexp_neg.
    destruct (Z.leb_spec 0 k) as [_|Hbad]; [|lia].
    set (m := Float.round_half_even (Z.abs n * 2 ^ k) (Zpos d)).
    assert (Hkj : 2 ^ k = 2 ^ (k - j) * 2 ^ j)
      by (rewrite <- Z.pow_add_r by lia; f_equal; lia).
    assert (HKJ : 0 < 2 ^ (k - j)) by (apply Z.pow_pos_nonneg; lia).
    assert (HK : 0 < 2 ^ k) by (apply Z.pow_pos_nonneg; lia).
    (* the bounds on the rounded significand *)
    assert (Hm : A * 2 ^ (k - j) <= Z.sgn n * m <= B * 2 ^ (k - j)).
    { clearbody k. set (P := 2 ^ (k - j)) in *. set (J := 2 ^ j) in *.
      destruct (Z.lt_total n 0) as [Hneg|[Hz|Hpos]]; [|contradiction|].
      - rewrite (Z.sgn_neg n Hneg). unfold m. rewrite (Z.abs_neq n) by lia.
        assert (Hmax : - B * P <= Z.max (- B) 0 * P)
          by (apply Z.mul_le_mono_nonneg_r; lia).
        pose proof (round_half_even_between (- n * 2 ^ k) (Zpos d)
                      (Z.max (- B) 0 * P) (- A * P) Hd) as Hr.
        destruct Hr as [Hr1 Hr2]; [rewrite Hkj; split; nia|]. lia.
      - rewrite (Z.sgn_pos n Hpos). unfold m. rewrite (Z.abs_eq n) by lia.
        assert (Hmax : A * P <= Z.max A 0 * P)
          by (apply Z.mul_le_mono_nonneg_r; lia).
        pose proof (round_half_even_between (n * 2 ^ k) (Zpos d)
                      (Z.max A 0 * P) (B * P) Hd) as Hr.
        destruct Hr as [Hr1 Hr2]; [rewrite Hkj; split; nia|]. lia. }
    (* from the fraction to its reduced form *)
    set (y := Qmake (Z.sgn n * m) (Z.to_pos (2 ^ k))).
    pose proof (Qred_correct y) as Hred. unfold Qeq in Hred.
    assert (Hyd : QDen y = 2 ^ k)
      by (unfold y; cbn [Qden]; apply Z2Pos.id; assumption).
    assert (Hyn : Qnum y = Z.sgn n * m) by reflexivity.
    rewrite Hyd, Hyn in Hred.
    set (n' := Qnum (Qred y)) in *.
    assert (Hd' : 0 < QDen (Qred y)) by lia.
    set (d' := QDen (Qred y)) in *.
    clearbody k m n' d'. destruct Hm as [Hm1 Hm2].
    set (P := 2 ^ (k - j)) in *. set (J := 2 ^ j) in *.
    set (K := 2 ^ k) in *. set (s := Z.sgn n * m) in *.
    split.
    + apply (Z.mul_le_mono_pos_r _ _ K); [assumption|].
      replace (n' * J * K) with (s * d' * J) by (rewrite <- Hred; ring).
      rewrite Hkj.
      replace (A * d' * (P * J)) with (A * P * (d' * J)) by ring.
      replace (s * d' * J) with (s * (d' * J)) by ring.
      apply Z.mul_le_mono_nonneg_r; [nia|assumption].
    + apply (Z.mul_le_mono_pos_r _ _ K); [assumption|].
      replace (n' * J * K) with (s * d' * J) by (rewrite <- Hred; ring).
      rewrite Hkj.
      replace (B * d' * (P * J)) with (B * P * (d' * J)) by ring.
      replace (s * d' * J) with (s * (d' * J)) by ring.
      apply Z.mul_le_mono_nonneg_r; [nia|assumption].
Qed.

Lemma to_int_quotient (x : Q) (q : Z) :
  q * QDen x <= Qnum x < (q + 1) * QDen x -> 0 <= q ->
  Float.to_int x = q.
Proof.
  intros [Hlo Hhi] Hq. destruct x as [n d]. cbn [Qnum Qden] in *.
  unfold Float.to_int. cbn [Qnum Qden].
  rewrite Z.quot_div_nonneg by nia.
  symmetry. apply (Z.div_unique n (Zpos d) q (n - q * Zpos d)); lia.
Qed.

Lemma to_int_quotient_neg (x : Q) (q : Z) :
  - (q + 1) * QDen x < Qnum x <= - q * QDen x -> 0 <= q ->
  Float.to_int x = - q.
Proof.
  intros [Hlo Hhi] Hq. destruct x as [n d]. cbn [Qnum Qden] in *.
  unfold Float.to_int. cbn [Qnum Qden].
  replace n with (- (- n)) by lia. rewrite Z.quot_opp_l by lia.
  rewrite Z.quot_div_nonneg by nia. f_equal.
  symmetry. apply (Z.div_unique (- n) (Zpos d) q (- n - q * Zpos d)); lia.
Qed.

(** [int(e / 1000)] is [e] divided by 1000 and truncated towards zero,
    for every [e] below [2^52] in magnitude: the float quotient is never
    rounded up to the next second. *)
Lemma body_seconds_quot (e : Z) :
  - 2 ^ 52 < e < 2 ^ 52 -> body_seconds e = Z.quot e 1000.
Proof.
  intros He. unfold body_seconds, Float.int_truediv.
  unfold Qdiv, Qmult, Qinv. cbn [Qnum Qden Pos.mul].
  set (x := Qmake (e * 1) 1000).
  destruct (Z.le_gt_cases 0 e) as [Hpos|Hneg].
  - set (q := e / 1000).
    pose proof (Z.div_mod e 1000 ltac:(lia)) as Hdm.
    pose proof (Z.mod_pos_bound e 1000 ltac:(lia)) as Hr. fold q in Hdm.
    assert (Hq : 0 <= q) by (apply Z.div_pos; lia).
    pose proof (RN_between_dyadic x (1024 * q) (1024 * q + 1023) 10
                  ltac:(lia) ltac:(lia) ltac:(lia)) as Hrn.
    destruct Hrn as [Hlo Hhi].
    { unfold x. cbn [Qnum Qden]. change (2 ^ 10) with 1024. lia. }
    change (2 ^ 10) with 1024 in Hlo, Hhi.
    rewrite Z.quot_div_nonneg by lia. fold q.
    apply to_int_quotient; [|assumption].
    pose proof (Pos2Z.is_pos (Qden (Float.RN x))). lia.
  - set (q := (- e) / 1000).
    pose proof (Z.div_mod (- e) 1000 ltac:(lia)) as Hdm.
    pose proof (Z.mod_pos_bound (- e) 1000 ltac:(lia)) as Hr. fold q in Hdm.
    assert (Hq : 0 <= q) by (apply Z.div_pos; lia).
    pose proof (RN_between_dyadic x (- (1024 * q + 1023)) (- (1024 * q)) 10
                  ltac:(lia) ltac:(lia) ltac:(lia)) as Hrn.
    destruct Hrn as [Hlo Hhi].
    { unfold x. cbn [Qnum Qden]. change (2 ^ 10) with 1024. lia. }
    change (2 ^ 10) with 1024 in Hlo, Hhi.
    replace e with (- (- e)) at 1 by lia. rewrite Z.quot_opp_l by lia.
    rewrite Z.quot_div_nonneg by lia. fold q.
    apply to_int_quotient_neg; [|assumption].
    pose proof (Pos2Z.is_pos (Qden (Float.RN x))). lia.
Qed.

(** The seconds that the body file lines print for a record are its
    epoch milliseconds divided by 1000 and truncated towards zero: a
    time before 1970 is moved up to the next second, not down. *)
Theorem body_seconds_of_epoch (filetime : Z) :
  0 <= filetime < 2 ^ 64 ->
  body_seconds (filetimeToEpoch filetime)
  = Z.quot (filetimeToEpoch filetime) 1000.
Proof.
  intros Ht. apply body_seconds_quot.
  pose proof (filetimeToEpoch_bounds filetime Ht) as Hb. lia.
Qed.

(** ** Statements for the scanner and the timestamps *)

(** Between records [findNextRecord] steps over the zero length fields
    of the padding, four bytes at a time, stops at the first non-zero
    one, leaves the cursor on it, and returns the offset of the cursor
    plus that length; [journalSize] plays no part. *)
Theorem findNextRecord_returns_offset_after_record
  (infile : stream) (g : nat) (len4 rest : list byte) (journalSize : Z)
  (fuel : nat) :
  skipn (position infile) (content infile)
  = repeat Byte.x00 (4 * g) ++ len4 ++ rest ->
  length len4 = 4%nat ->
  le_combine len4 <> 0 ->
  (g < fuel)%nat ->
  findNextRecord fuel infile journalSize
  = Some (Ok (IO.tell infile + Z.of_nat (4 * g) + le_combine len4),
          mkStream (content infile) (position infile + 4 * g)).
Proof.
  intros Hrem Hlen Hnz Hfuel. destruct infile as [bytes pos].
  cbn [position content] in *.
  rewrite (findNextRecord_gap fuel bytes pos g len4 rest journalSize)
    by assumption.
  unfold IO.tell. cbn [position]. do 3 f_equal. lia.
Qed.

(** On a 64-bit FILETIME [filetimeToEpoch] returns
    [floor(t / 10000) - 11644473600000] or one millisecond more, and
    nothing else. *)
Theorem filetimeToEpoch_floor_or_one_more (t : Z) :
  0 <= t < 2 ^ 64 ->
  filetimeToEpoch t = t / 10000 - 11644473600000
  \/ filetimeToEpoch t = t / 10000 - 11644473600000 + 1.
Proof.
  intros Ht. pose proof (filetimeToEpoch_within_one t Ht). lia.
Qed.

(** ** The further properties at concrete inputs *)

(** On eight zero bytes, the two records of [example_journal] and eight
    more zero bytes, [main] writes both records, with the filenames
    [ab] and [cde], and ends by [SystemExit]. *)
Lemma main_decodes_journal_witness :
  exists u1 u2,
    main example_runtime 1 3 3
      (repeat Byte.x00 8 ++ journal_bytes example_journal (repeat Byte.x00 8))
    = Some ([u1; u2], SystemExit)
    /\ filename u1 = [0x61; 0x62]
    /\ filename u2 = [0x63; 0x64; 0x65]
    /\ epochTimestamp u1 = 1577836800000.
Proof.
  unfold example_journal.
  rewrite (main_decodes_journal example_runtime 8 _ _ (repeat Byte.x00 8)
             1 3 3).
  - vm_compute. do 2 eexists. repeat split.
  - reflexivity.
  - discriminate.
  - vm_compute. reflexivity.
  - reflexivity.
  - apply Nat.ltb_lt. vm_compute. reflexivity.
  - repeat constructor.
  - cbn. lia.
  - cbn. lia.
Defined.

Lemma main_spins_on_zero_file_witness :
  main example_runtime 3 2 2 (repeat Byte.x00 5) = None.
Proof.
  apply (main_spins_on_zero_file example_runtime (repeat Byte.x00 5) 3 2 2).
  repeat constructor.
Defined.

Lemma findFirstRecord_zero_low_byte_witness :
  exists offset infile',
    findFirstRecord 1
      (mkStream
         (repeat Byte.x00 8
          ++ [Byte.x00; Byte.x01; Byte.x00; Byte.x00] ++ repeat Byte.x00 252)
         0)
    = Some (offset, infile')
    /\ Z.of_nat 8 < offset < Z.of_nat 8 + 4.
Proof.
  apply (findFirstRecord_zero_low_byte 8
           [Byte.x00; Byte.x01; Byte.x00; Byte.x00] (repeat Byte.x00 252) 1).
  - reflexivity.
  - vm_compute. discriminate.
  - reflexivity.
  - apply Nat.leb_le. vm_compute. reflexivity.
Defined.

Lemma findNextRecord_returns_offset_after_record_witness :
  findNextRecord 3
    (mkStream (repeat Byte.x00 8 ++ [Byte.x40; Byte.x00; Byte.x00; Byte.x00]
               ++ repeat Byte.x61 60) 0) 72
  = Some (Ok (0 + Z.of_nat (4 * 2) + 64),
          mkStream (repeat Byte.x00 8
                    ++ [Byte.x40; Byte.x00; Byte.x00; Byte.x00]
                    ++ repeat Byte.x61 60) (0 + 4 * 2)).
Proof.
  apply (findNextRecord_returns_offset_after_record
           (mkStream (repeat Byte.x00 8
                      ++ [Byte.x40; Byte.x00; Byte.x00; Byte.x00]
                      ++ repeat Byte.x61 60) 0)
           2 [Byte.x40; Byte.x00; Byte.x00; Byte.x00] (repeat Byte.x61 60)
           72 3).
  - reflexivity.
  - reflexivity.
  - vm_compute. discriminate.
  - lia.
Defined.

Lemma findNextRecord_spins_witness :
  findNextRecord 5 (mkStream (repeat Byte.x00 8) 0) 9 = None.
Proof.
  apply (findNextRecord_spins 5 (repeat Byte.x00 8) 0 9).
  - reflexivity.
  - vm_compute. reflexivity.
Defined.

Lemma filenameHandler_scalar_values_witness :
  forallb is_scalar_value [0x1F600] = true.
Proof.
  apply (filenameHandler_scalar_values LittleEndian
           (mkStream [Byte.x3d; Byte.xd8; Byte.x00; Byte.xde] 0)
           (mkStream [Byte.x3d; Byte.xd8; Byte.x00; Byte.xde] 4) 4).
  reflexivity.
Defined.

Lemma filenameHandler_odd_length_witness :
  filenameHandler LittleEndian
    (mkStream [Byte.x61; Byte.x00; Byte.x62; Byte.x00] 0) 3
  = (Raise UnicodeDecodeError,
     mkStream [Byte.x61; Byte.x00; Byte.x62; Byte.x00] (0 + Z.to_nat 3)).
Proof.
  apply (filenameHandler_odd_length LittleEndian
           (mkStream [Byte.x61; Byte.x00; Byte.x62; Byte.x00] 0) 3).
  - vm_compute. split; discriminate.
  - reflexivity.
Defined.

Lemma filetimeToEpoch_floor_or_one_more_witness :
  filetimeToEpoch 132223104000009999
  = 132223104000009999 / 10000 - 11644473600000
  \/ filetimeToEpoch 132223104000009999
     = 132223104000009999 / 10000 - 11644473600000 + 1.
Proof.
  apply (filetimeToEpoch_floor_or_one_more 132223104000009999).
  vm_compute. split; [discriminate|reflexivity].
Defined.

Lemma filetimeToEpoch_multiple_of_10000_witness :
  filetimeToEpoch 132223104000000000
  = 132223104000000000 / 10000 - 11644473600000.
Proof.
  apply (filetimeToEpoch_multiple_of_10000 132223104000000000).
  - vm_compute. split; [discriminate|reflexivity].
  - reflexivity.
Defined.

Lemma body_seconds_of_epoch_witness :
  body_seconds (filetimeToEpoch 116444735999985000)
  = Z.quot (filetimeToEpoch 116444735999985000) 1000.
Proof.
  apply (body_seconds_of_epoch 116444735999985000).
  vm_compute. split; [discriminate|reflexivity].
Defined.

Lemma convertFileReference_in_range_witness :
  exists seq entry,
    convertFileReference 0xFFFF000000001005 = Ok (seq, entry)
    /\ seq = Struct.to_signed 16 (Z.shiftr 0xFFFF000000001005 48)
    /\ - 2 ^ 15 <= seq < 2 ^ 15
    /\ 0 <= entry <= Z.land 0xFFFF000000001005 0xFFFFFFFFFFFF.
Proof.
  apply (convertFileReference_in_range 0xFFFF000000001005).
  vm_compute. split; [discriminate|reflexivity].
Defined.

Lemma convertFileReference_exact_on_two_digit_bytes_witness :
  convertFileReference 0x8001123456789abc
  = Ok (Struct.to_signed 16 (Z.shiftr 0x8001123456789abc 48),
        Z.land 0x8001123456789abc 0xFFFFFFFFFFFF)
  /\ Z.lor
       (Z.shiftl
          (Struct.to_signed 16 (Z.shiftr 0x8001123456789abc 48) mod 2 ^ 16)
          48)
       (Z.land 0x8001123456789abc 0xFFFFFFFFFFFF)
     = 0x8001123456789abc.
Proof.
  apply (convertFileReference_exact_on_two_digit_bytes 0x8001123456789abc).
  - vm_compute. split; [discriminate|reflexivity].
  - repeat constructor; vm_compute; discriminate.
Defined.

Lemma convertAttributes_same_string_iff_witness :
  convertAttributes attributes 0x20 = convertAttributes attributes 0x40020
  <-> Z.land 0x20 (table_mask attributes)
      = Z.land 0x40020 (table_mask attributes).
Proof.
  apply (convertAttributes_same_string_iff attributes 0x20 0x40020).
  right. left. reflexivity.
Defined.

Lemma convertAttributes_empty_iff_witness :
  convertAttributes sourceInfo 0x30 = EmptyString
  <-> Z.land 0x30 (table_mask sourceInfo) = 0.
Proof.
  apply (convertAttributes_empty_iff sourceInfo 0x30).
  right. right. left. reflexivity.
Defined.

Lemma format_016x_round_trip_witness :
  String.length (format_016x 132223104000000000) = 16%nat
  /\ int_16 (format_016x 132223104000000000) = Ok 132223104000000000.
Proof.
  apply (format_016x_round_trip 132223104000000000).
  vm_compute. split; [discriminate|reflexivity].
Defined.

Lemma filenameHandler_without_mark_witness :
  filenameHandler LittleEndian
    (mkStream [Byte.x61; Byte.x00; Byte.x3d; Byte.xd8; Byte.x00; Byte.xde] 0)
    6
  = (Ok [0x61; 0x1F600],
     mkStream [Byte.x61; Byte.x00; Byte.x3d; Byte.xd8; Byte.x00; Byte.xde]
       6).
Proof.
  apply (filenameHandler_without_mark
           (mkStream
              [Byte.x61; Byte.x00; Byte.x3d; Byte.xd8; Byte.x00; Byte.xde] 0)
           6).
  - vm_compute. split; discriminate.
  - discriminate.
  - discriminate.
Defined.

Lemma parseUsn_raises_only_witness :
  (UnicodeDecodeError = UnicodeDecodeError
   /\ filenameHandler LittleEndian
        (mkStream [Byte.x61; Byte.x00; Byte.x62; Byte.x00] 0) 3
      = (Raise UnicodeDecodeError,
         mkStream [Byte.x61; Byte.x00; Byte.x62; Byte.x00] 3))
  \/ (is_ValueError UnicodeDecodeError = false
      /\ utcfromtimestamp_str example_runtime
           (unix_seconds 132223104000000000)
         = Raise UnicodeDecodeError).
Proof.
  apply (parseUsn_raises_only example_runtime
           (mkStream [Byte.x61; Byte.x00; Byte.x62; Byte.x00] 0)
           (mkStream [Byte.x61; Byte.x00; Byte.x62; Byte.x00] 3)
           (example_header Byte.x03)
           (mkHeader 0 0 0 0 0 132223104000000000 0 0 0 0 3 60)
           UnicodeDecodeError).
  - reflexivity.
  - reflexivity.
Defined.

Lemma parseUsn_returns_record_witness :
  exists u,
    parseUsn example_runtime
      (mkStream [Byte.x61; Byte.x00; Byte.x62; Byte.x00] 0)
      (mkHeader 0 0 0 0 0 132223104000000000 0 0 0 0 4 60)
    = (Ok u, mkStream [Byte.x61; Byte.x00; Byte.x62; Byte.x00] 4)
    /\ filename u = [0x61; 0x62]
    /\ humanTimestamp u = None
    /\ epochTimestamp u = 1577836800000.
Proof.
  destruct (parseUsn_returns_record example_runtime
              (mkStream [Byte.x61; Byte.x00; Byte.x62; Byte.x00] 0)
              (mkStream [Byte.x61; Byte.x00; Byte.x62; Byte.x00] 4)
              (example_header Byte.x04)
              (mkHeader 0 0 0 0 0 132223104000000000 0 0 0 0 4 60)
              [0x61; 0x62])
    as (u & Hu & Hname & Hhuman & Hepoch & _).
  - reflexivity.
  - reflexivity.
  - intros e He. vm_compute in He. now inversion He.
  - exists u. repeat split; assumption.
Defined.

Lemma main_loop_truncated_last_record_witness :
  exists u,
    main_loop example_runtime 2 1
      (mkStream ([Byte.x50; Byte.x00; Byte.x00; Byte.x00]
                 ++ example_header Byte.x14 ++ repeat Byte.x61 6) 0)
      (Z.of_nat
         (length ([Byte.x50; Byte.x00; Byte.x00; Byte.x00]
                  ++ example_header Byte.x14 ++ repeat Byte.x61 6)))
    = Some ([u], SystemExit)
    /\ filename u = []
    /\ humanTimestamp u = None
    /\ epochTimestamp u = filetimeToEpoch 132223104000000000.
Proof.
  apply (main_loop_truncated_last_record example_runtime 0
           ([Byte.x50; Byte.x00; Byte.x00; Byte.x00]
            ++ example_header Byte.x14 ++ repeat Byte.x61 6)
           0 [Byte.x50; Byte.x00; Byte.x00; Byte.x00]
           (example_header Byte.x14) (repeat Byte.x61 6)
           (mkHeader 0 0 0 0 0 132223104000000000 0 0 0 0 20 60) None).
  - reflexivity.
  - reflexivity.
  - reflexivity.
  - vm_compute. discriminate.
  - reflexivity.
  - vm_compute. reflexivity.
  - vm_compute. discriminate.
  - reflexivity.
Defined.
